(** * Chess analysis pipeline: resolver, scoring and persistence

    A shallow embedding of [analysis.py] (the script that resolves PGN games
    to rows of [chess.db], scores them with a UCI engine and upserts the
    results), with the table layout of [matrix.py], and the properties
    proved about it.

    Conventions.
    - Python [int] is [Z]; [str] is [string], read as a sequence of code
      points below 256 (Latin-1); [Optional[T]] is [option T]; a [dict]
      with string keys is a [gmap string _].
    - Python [float] is idealised as a real number ([R]): rounding is not
      modelled.  The per-side loss accumulators only ever hold sums of
      integers, so they are kept as [Z] and injected into [R] where the
      source divides.
    - A Python exception is a value of [exn]; code that may raise returns a
      [result].
    - The SQLite file is a record of tables, each a list of rows; SELECT
      statements are functions of the store and statements that write are
      store transformers. *)

From Stdlib Require Import ZArith List String Ascii Bool Reals Lra Lia.
From Stdlib Require Import Sorting.Sorted Sorting.Permutation.
From stdpp Require Import base gmap strings sorting.
Import ListNotations.

#[local] Open Scope string_scope.
#[local] Open Scope list_scope.
#[local] Open Scope Z_scope.

(** ** Python values: exceptions, strings and integers *)

Module Py.

(** The exception classes that the script can meet.  Each carries the text
    that [str(e)] yields. *)
Inductive exn : Type :=
| ValueError (msg : string)
| IndexError (msg : string)
| KeyError (msg : string)
| ZeroDivisionError (msg : string)
| IntegrityError (msg : string)
| EngineTerminatedError (msg : string)
| EngineError (msg : string)
| OtherException (msg : string).

Definition str_of_exn (e : exn) : string :=
  match e with
  | ValueError m | IndexError m | KeyError m | ZeroDivisionError m
  | IntegrityError m | EngineTerminatedError m | EngineError m
  | OtherException m => m
  end.

Inductive result (A : Type) : Type :=
| Ok (a : A)
| Raise (e : exn).
Arguments Ok {A} a.
Arguments Raise {A} e.

Definition bind {A B} (r : result A) (k : A -> result B) : result B :=
  match r with
  | Ok a => k a
  | Raise e => Raise e
  end.

(** [try: body except Exception: return dflt] *)
Definition try_except {A} (body : result A) (dflt : A) : A :=
  match body with
  | Ok a => a
  | Raise _ => dflt
  end.

Definition code (c : ascii) : Z := Z.of_nat (nat_of_ascii c).

(** [Py_ISSPACE]: the white space that [int()] skips in an ASCII string. *)
Definition is_c_space (c : ascii) : bool :=
  ((9 <=? code c) && (code c <=? 13)) || (code c =? 32).

(** [int()] first rewrites every non-ASCII white-space character to a
    blank; below 256 these are NEL (133) and NBSP (160). *)
Definition is_int_space (c : ascii) : bool :=
  is_c_space c || (code c =? 133) || (code c =? 160).

(** [str.isspace] for one character, as used by [str.strip()]: it also
    holds of the separators 28 to 31. *)
Definition is_unicode_space (c : ascii) : bool :=
  is_int_space c || ((28 <=? code c) && (code c <=? 31)).

Definition digit_val (c : ascii) : option Z :=
  if (48 <=? code c) && (code c <=? 57) then Some (code c - 48) else None.

Fixpoint lstrip (p : ascii -> bool) (s : string) : string :=
  match s with
  | EmptyString => EmptyString
  | String c s' => if p c then lstrip p s' else s
  end.

Fixpoint rstrip (p : ascii -> bool) (s : string) : string :=
  match s with
  | EmptyString => EmptyString
  | String c s' =>
      match rstrip p s' with
      | EmptyString => if p c then EmptyString else String c EmptyString
      | t => String c t
      end
  end.

(** [s.strip()] *)
Definition strip (s : string) : string :=
  rstrip is_unicode_space (lstrip is_unicode_space s).

(** [s.startswith(p)] *)
Definition startswith (s p : string) : bool := String.prefix p s.

(** [s.split(sep)] for a one-character separator: never empty. *)
Fixpoint split (sep : ascii) (s : string) : list string :=
  match s with
  | EmptyString => [EmptyString]
  | String c s' =>
      if Ascii.eqb c sep then EmptyString :: split sep s'
      else match split sep s' with
           | p :: ps => String c p :: ps
           | [] => [String c EmptyString]
           end
  end.

(** [parts[i]] *)
Definition index {A} (l : list A) (i : nat) : result A :=
  match nth_error l i with
  | Some a => Ok a
  | None => Raise (IndexError "list index out of range")
  end.

(** [sys.int_info.default_max_str_digits] *)
Definition MAX_STR_DIGITS : nat := 4300.

(** The digits of a base-10 literal: [digit (["_"] digit)*].  [us] tells
    that the previous character was an underscore; [acc] and [n] are the
    value and the number of digits read so far.  Returns the value, the
    digit count and the unread rest. *)
Fixpoint scan_digits (us : bool) (acc : Z) (n : nat) (s : string)
  : option (Z * nat * string) :=
  match s with
  | EmptyString => if us then None else Some (acc, n, EmptyString)
  | String c s' =>
      match digit_val c with
      | Some d => scan_digits false (10 * acc + d) (S n) s'
      | None =>
          if Ascii.eqb c "_" then
            if us then None else scan_digits true acc n s'
          else if us then None else Some (acc, n, s)
      end
  end.

Definition invalid_literal : exn :=
  ValueError "invalid literal for int() with base 10".

(** [int(s)] for a string: blanks, an optional sign, the digits, blanks.
    More than [MAX_STR_DIGITS] digits are refused. *)
Definition int (s : string) : result Z :=
  let s1 := lstrip is_int_space s in
  let '(neg, s2) :=
    match s1 with
    | String "-" t => (true, t)
    | String "+" t => (false, t)
    | _ => (false, s1)
    end in
  match s2 with
  | EmptyString => Raise invalid_literal
  | String c _ =>
      match digit_val c with
      | None => Raise invalid_literal
      | Some _ =>
          match scan_digits false 0 0 s2 with
          | None => Raise invalid_literal
          | Some (v, n, rest) =>
              match lstrip is_int_space rest with
              | EmptyString =>
                  if (MAX_STR_DIGITS <? n)%nat
                  then Raise (ValueError "Exceeds the limit for integer string conversion")
                  else Ok (if neg then - v else v)
              | String _ _ => Raise invalid_literal
              end
          end
      end
  end.

(** The decimal digits of a natural number, most significant first. *)
Fixpoint digits_fuel (fuel : nat) (n : Z) (acc : string) : string :=
  match fuel with
  | O => acc
  | S f =>
      let acc' := String (ascii_of_nat (Z.to_nat (48 + n mod 10))) acc in
      if n <? 10 then acc' else digits_fuel f (n / 10) acc'
  end.

Definition digits (n : Z) : string :=
  digits_fuel (S (Z.to_nat (Z.log2 n))) n EmptyString.

(** [str(z)] *)
Definition str_of_int (z : Z) : string :=
  if z <? 0 then String "-" (digits (- z)) else digits z.

Fixpoint zeros (n : nat) : string :=
  match n with
  | O => EmptyString
  | S n' => String "0" (zeros n')
  end.

(** [f"{z:0{w}d}"]: the sign first, then zeros up to width [w]. *)
Definition format_0d (w : nat) (z : Z) : string :=
  let d := digits (Z.abs z) in
  if z <? 0 then String "-" (zeros (w - 1 - String.length d) +:+ d)
  else zeros (w - String.length d) +:+ d.

(** [sep.join(l)] *)
Fixpoint join (sep : string) (l : list string) : string :=
  match l with
  | [] => EmptyString
  | [x] => x
  | x :: l' => x +:+ sep +:+ join sep l'
  end.

End Py.

Import Py.

#[global] Instance result_ret : MRet result := @Ok.
#[global] Instance result_bind : MBind result := fun A B k r => Py.bind r k.

(** [v or dflt] for an optional string: [None] and the empty string are
    falsy. *)
Definition or_str (v : option string) (dflt : string) : string :=
  match v with
  | Some (String c s) => String c s
  | _ => dflt
  end.

(** ** The store: the tables of [chess.db] *)

Module Db.

(** [players (id INTEGER PRIMARY KEY AUTOINCREMENT, name TEXT NOT NULL UNIQUE)] *)
Record player_row : Type := {
  p_id : Z;
  p_name : string;
}.

(** The columns of [games] that the resolver reads; [date] and [ply_count]
    are nullable. *)
Record game_row : Type := {
  g_id : Z;
  g_white_id : Z;
  g_black_id : Z;
  g_result : string;
  g_date : option string;
  g_ply_count : option Z;
}.

(** The columns of [moves] that the resolver reads. *)
Record move_row : Type := {
  m_game_id : Z;
  m_ply : Z;
  m_uci : string;
}.

(** A row of [analysis], in the order of the tuple that [_analyze_job]
    returns; only [notes] is optional. *)
Record analysis_row : Type := {
  game_id : Z;
  plies_analyzed : Z;
  acpl_white : R;
  acpl_black : R;
  accuracy_white : R;
  accuracy_black : R;
  ms_total : Z;
  engine : string;
  movetime_ms : Z;
  skipped_plies : Z;
  notes : option string;
}.

Record db : Type := {
  players : list player_row;
  games : list game_row;
  moves : list move_row;
  analysis : list analysis_row;
}.

Definition set_analysis (d : db) (t : list analysis_row) : db :=
  {| players := players d; games := games d; moves := moves d; analysis := t |}.

(** A computation on a connection: it may raise and it may change the
    store. *)
Definition M (A : Type) : Type := db -> result A * db.

#[global] Instance M_ret : MRet M := fun A a d => (Ok a, d).
#[global] Instance M_bind : MBind M := fun A B k c d =>
  match c d with
  | (Ok a, d') => k a d'
  | (Raise e, d') => (Raise e, d')
  end.

(** [cur.execute("SELECT ...")] followed by a fetch: the rows are a
    function of the store, which stays as it is. *)
Definition select {A} (q : db -> A) : M A := fun d => (Ok (q d), d).

(** A pure step that may raise. *)
Definition lift {A} (r : result A) : M A := fun d => (r, d).

(** [ORDER BY key], ascending; rows with equal keys keep their order. *)
Fixpoint insert_by {A} (key : A -> Z) (x : A) (l : list A) : list A :=
  match l with
  | [] => [x]
  | y :: l' => if key x <=? key y then x :: l else y :: insert_by key x l'
  end.

Definition order_by {A} (key : A -> Z) (l : list A) : list A :=
  fold_right (insert_by key) [] l.

(** [col = ?] on a nullable column: a NULL never compares equal. *)
Definition sql_eq {A} (eqb : A -> A -> bool) (col : option A) (v : A) : bool :=
  match col with
  | Some c => eqb c v
  | None => false
  end.

(** [SELECT id FROM players WHERE name=?] *)
Definition select_player (name : string) (d : db) : list Z :=
  map p_id (List.filter (fun p => String.eqb (p_name p) name) (players d)).

(** The key columns other than the date. *)
Definition key_match (w b : Z) (res : string) (ply_count : Z) (g : game_row) : bool :=
  (g_white_id g =? w) && (g_black_id g =? b) && String.eqb (g_result g) res
  && sql_eq Z.eqb (g_ply_count g) ply_count.

(** [SELECT id FROM games WHERE white_id=? AND black_id=? AND result=?
     AND date=? AND ply_count=? ORDER BY id] *)
Definition select_games_dated (w b : Z) (res date : string) (ply_count : Z)
    (d : db) : list Z :=
  map g_id (order_by g_id
    (List.filter (fun g => key_match w b res ply_count g
                           && sql_eq String.eqb (g_date g) date) (games d))).

(** [date IS NULL OR date=''] *)
Definition date_missing (g : game_row) : bool :=
  match g_date g with
  | None => true
  | Some s => String.eqb s ""
  end.

(** [SELECT id FROM games WHERE white_id=? AND black_id=? AND result=?
     AND (date IS NULL OR date='') AND ply_count=? ORDER BY id] *)
Definition select_games_undated (w b : Z) (res : string) (ply_count : Z)
    (d : db) : list Z :=
  map g_id (order_by g_id
    (List.filter (fun g => key_match w b res ply_count g && date_missing g)
       (games d))).

(** The moves stored for a game, by ply. *)
Definition stored_moves (gid : Z) (d : db) : list string :=
  map m_uci (order_by m_ply
    (List.filter (fun m => m_game_id m =? gid) (moves d))).

(** [SELECT uci FROM moves WHERE game_id=? ORDER BY ply LIMIT ?] *)
Definition select_moves (gid : Z) (limit : nat) (d : db) : list string :=
  firstn limit (stored_moves gid d).

End Db.

Import Db.

(** ** The identity resolver *)

Definition list_eqb (l1 l2 : list string) : bool :=
  bool_decide (l1 = l2).

Definition parse_pgn_date_to_iso (s : option string) : result (option string) :=
  match s with
  | None => Ok None
  | Some s =>
      if String.eqb s "" || startswith s "?" then Ok None
      else
        let parts := split "." s in
        match
          (p0 ← index parts 0;
           y ← int p0;
           p1 ← index parts 1;
           m ← (if String.eqb p1 "??" then Ok 1 else int p1);
           p2 ← index parts 2;
           d ← (if String.eqb p2 "??" then Ok 1 else int p2);
           Ok (Some (format_0d 4 y +:+ "-" +:+ format_0d 2 m +:+ "-"
                     +:+ format_0d 2 d)))
        with
        | Ok v => Ok v
        | Raise _ => Ok None
        end
  end.

Definition resolve_player_id (name : string) : M (option Z) :=
  rows ← select (select_player name);
  mret (head rows).

(** The loop over the candidates; [fallback] is [cands[0]]. *)
Fixpoint disambiguate (probe : list string) (cands : list Z) (fallback : Z)
  : M (option Z) :=
  match cands with
  | [] => mret (Some fallback)
  | gid :: rest =>
      ucis ← select (select_moves gid (length probe));
      if list_eqb ucis probe then mret (Some gid)
      else disambiguate probe rest fallback
  end.

(** The end of [resolve_game_id], from [if not cands] on. *)
Definition pick_candidate (uci_moves : list string) (cands : list Z)
  : M (option Z) :=
  match cands with
  | [] => mret None
  | [c] => mret (Some c)
  | c :: _ =>
      let probe := firstn 10 uci_moves in
      disambiguate probe cands c
  end.

(** The query for the candidate key; a date that is [None] or empty is
    falsy and takes the second statement. *)
Definition candidate_query (w b : Z) (res : string) (date_iso : option string)
    (ply_count : Z) (d : db) : list Z :=
  match date_iso with
  | Some (String c s) => select_games_dated w b res (String c s) ply_count d
  | _ => select_games_undated w b res ply_count d
  end.

Definition white_name (tags : gmap string string) : string :=
  strip (or_str (tags !! "White") "Unknown").

Definition black_name (tags : gmap string string) : string :=
  strip (or_str (tags !! "Black") "Unknown").

Definition resolve_game_id (tags : gmap string string) (uci_moves : list string)
  : M (option Z) :=
  let white := white_name tags in
  let black := black_name tags in
  let res := or_str (tags !! "Result") "*" in
  date_iso ← lift (parse_pgn_date_to_iso (tags !! "Date"));
  let ply_count := Z.of_nat (length uci_moves) in
  w_id ← resolve_player_id white;
  b_id ← resolve_player_id black;
  match w_id, b_id with
  | Some w, Some b =>
      cands ← select (candidate_query w b res date_iso ply_count);
      pick_candidate uci_moves cands
  | _, _ => mret None
  end.

(** ** The chess library, as far as the script uses it *)

Module Chess.

(** [chess.engine.Score] of python-chess: [Cp n] is a score in
    centipawns; [Mate n] is a mate in [n] plies, for the point of view
    when [n] is positive and against it otherwise, [Mate 0] saying that
    the point of view is checkmated; [MateGiven] says that the point of
    view has given mate.  The engine's "score mate n" is read as [Mate n]
    relative to the side to move. *)
Inductive Score : Type :=
| Cp (n : Z)
| Mate (n : Z)
| MateGiven.

(** [-s]: the same score from the other side; [-Mate(0)] is [MateGiven]
    and [-MateGiven] is [Mate(0)]. *)
Definition neg (s : Score) : Score :=
  match s with
  | Cp n => Cp (- n)
  | Mate n => if n =? 0 then MateGiven else Mate (- n)
  | MateGiven => Mate 0
  end.

(** [s.mate()]: the plies to mate, 0 for [MateGiven], [None] for
    centipawns. *)
Definition mate (s : Score) : option Z :=
  match s with
  | Cp _ => None
  | Mate n => Some n
  | MateGiven => Some 0
  end.

(** [s.score(mate_score=ms)] *)
Definition score (s : Score) (ms : Z) : Z :=
  match s with
  | Cp n => n
  | Mate n => if 0 <? n then ms - n else - ms - n
  | MateGiven => ms
  end.

(** [chess.engine.PovScore]: a score relative to the side [pov_turn];
    [true] is [chess.WHITE]. *)
Record PovScore : Type := {
  relative : Score;
  pov_turn : bool;
}.

(** [ps.white()] *)
Definition white (ps : PovScore) : Score :=
  if pov_turn ps then relative ps else neg (relative ps).

(** [ps.is_mate()] *)
Definition is_mate (ps : PovScore) : bool :=
  match mate (relative ps) with
  | Some _ => true
  | None => false
  end.

(** The [InfoDict] that [analyse] returns: the entry ["score"] may be
    absent. *)
Record Info : Type := {
  info_score : option PovScore;
}.

(** [info["score"]] *)
Definition get_score (i : Info) : result PovScore :=
  match info_score i with
  | Some ps => Ok ps
  | None => Raise (KeyError "'score'")
  end.

(** The board and the engine are used through this interface only.
    [Engine] is the state of the worker's engine process; [analyse] takes
    the think time in milliseconds. *)
Class Lib : Type := {
  Board : Type;
  Engine : Type;
  board_of_fen : string -> result Board;
  turn : Board -> bool;
  push_uci : Board -> string -> result Board;
  analyse : Engine -> Board -> Z -> result Info * Engine;
}.

End Chess.

Import Chess.

(** ** Scoring *)

Definition MOVETIME_MS : Z := 20.
Definition SKIP_PLIES : Z := 0.
Definition MAX_PLIES : option Z := None.

Definition _score_cp_white (eval_ : PovScore) : Z :=
  if is_mate eval_ then
    let mate_ply := mate (white eval_) in
    match mate_ply with
    | Some n => if negb (n =? 0) && (0 <? n) then 100000 else -100000
    | None => -100000
    end
  else score (white eval_) 100000.

(** [math.sqrt] *)
Definition math_sqrt (x : R) : result R :=
  if Rlt_dec x 0 then Raise (ValueError "math domain error") else Ok (sqrt x).

(** [max(a, b)] on floats: [b] when it is greater, else [a]. *)
Definition fmax (a b : R) : R := if Rlt_dec a b then b else a.

Definition _acpl_to_accuracy (acpl : R) : result R :=
  r ← math_sqrt (fmax 0 acpl);
  Ok (fmax 0 (100 - 0.5 * r))%R.

(** [a / b] for a float and an integer. *)
Definition truediv (a : R) (b : Z) : result R :=
  if b =? 0 then Raise (ZeroDivisionError "float division by zero")
  else Ok (a / IZR b)%R.

Record Job : Type := {
  job_game_id : Z;
  initial_fen : string;
  uci_moves : list string;
  tags : gmap string string;
}.

Section Analyze.
Context {L : Lib}.

(** The variables that the loop of [_analyze_job] updates, and the engine
    behind [_engine]. *)
Record loop_state : Type := {
  ls_board : Board;
  ls_engine : Engine;
  ls_notes : list string;
  ls_acpl_w : Z;
  ls_acpl_b : Z;
  ls_n_w : Z;
  ls_n_b : Z;
  ls_ply_idx : Z;
}.

Definition with_board (st : loop_state) (b : Board) : loop_state :=
  {| ls_board := b; ls_engine := ls_engine st; ls_notes := ls_notes st;
     ls_acpl_w := ls_acpl_w st; ls_acpl_b := ls_acpl_b st;
     ls_n_w := ls_n_w st; ls_n_b := ls_n_b st; ls_ply_idx := ls_ply_idx st |}.

Definition with_engine (st : loop_state) (e : Engine) : loop_state :=
  {| ls_board := ls_board st; ls_engine := e; ls_notes := ls_notes st;
     ls_acpl_w := ls_acpl_w st; ls_acpl_b := ls_acpl_b st;
     ls_n_w := ls_n_w st; ls_n_b := ls_n_b st; ls_ply_idx := ls_ply_idx st |}.

Definition with_ply_idx (st : loop_state) (i : Z) : loop_state :=
  {| ls_board := ls_board st; ls_engine := ls_engine st; ls_notes := ls_notes st;
     ls_acpl_w := ls_acpl_w st; ls_acpl_b := ls_acpl_b st;
     ls_n_w := ls_n_w st; ls_n_b := ls_n_b st; ls_ply_idx := i |}.

(** [notes.append(s)] *)
Definition append_note (st : loop_state) (s : string) : loop_state :=
  {| ls_board := ls_board st; ls_engine := ls_engine st;
     ls_notes := ls_notes st ++ [s];
     ls_acpl_w := ls_acpl_w st; ls_acpl_b := ls_acpl_b st;
     ls_n_w := ls_n_w st; ls_n_b := ls_n_b st; ls_ply_idx := ls_ply_idx st |}.

(** [acpl_w += x; n_w += 1] *)
Definition add_white (st : loop_state) (x : Z) : loop_state :=
  {| ls_board := ls_board st; ls_engine := ls_engine st; ls_notes := ls_notes st;
     ls_acpl_w := ls_acpl_w st + x; ls_acpl_b := ls_acpl_b st;
     ls_n_w := ls_n_w st + 1; ls_n_b := ls_n_b st; ls_ply_idx := ls_ply_idx st |}.

(** [acpl_b += x; n_b += 1] *)
Definition add_black (st : loop_state) (x : Z) : loop_state :=
  {| ls_board := ls_board st; ls_engine := ls_engine st; ls_notes := ls_notes st;
     ls_acpl_w := ls_acpl_w st; ls_acpl_b := ls_acpl_b st + x;
     ls_n_w := ls_n_w st; ls_n_b := ls_n_b st + 1; ls_ply_idx := ls_ply_idx st |}.

(** How one pass through the loop body ends. *)
Inductive ctl : Type :=
| Next
| Break
| Throw (e : exn).

(** [_engine.analyse(board, limit)["score"]], keeping the engine's new
    state. *)
Definition analyse_score (st : loop_state) : result PovScore * loop_state :=
  let '(r, e) := analyse (ls_engine st) (ls_board st) MOVETIME_MS in
  (r ≫= get_score, with_engine st e).

(** The score of the side [is_white], from White's score. *)
Definition pov (is_white : bool) (s_white : Z) : Z :=
  if is_white then s_white else - s_white.

(** The loss of one ply, from the two scores as White sees them. *)
Definition ply_loss (stm_is_white : bool) (s_best_white : Z)
    (turn_after : bool) (s_played_white : Z) : Z :=
  let s_best_stm := pov stm_is_white s_best_white in
  let s_after_stm := pov turn_after s_played_white in
  let s_after_mover := - s_after_stm in
  Z.max 0 (s_best_stm - s_after_mover).

(** The body of [for u in job.uci_moves]. *)
Definition body (st : loop_state) (u : string) : ctl * loop_state :=
  let st := with_ply_idx st (ls_ply_idx st + 1) in
  if negb (SKIP_PLIES =? 0) && (ls_ply_idx st <=? SKIP_PLIES) then
    match push_uci (ls_board st) u with
    | Raise _ =>
        (Break, append_note st ("illegal at ply " +:+ str_of_int (ls_ply_idx st)))
    | Ok b => (Next, with_board st b)
    end
  else if match MAX_PLIES with
          | Some m => negb (m =? 0) && (m <? ls_ply_idx st)
          | None => false
          end then (Break, st)
  else
    let stm_is_white := turn (ls_board st) in
    match analyse_score st with
    | (Raise e, st) => (Throw e, st)
    | (Ok info_best, st) =>
        let s_best_white := _score_cp_white info_best in
        match push_uci (ls_board st) u with
        | Raise _ =>
            (Break, append_note st ("illegal move " +:+ u +:+ " at ply "
                                    +:+ str_of_int (ls_ply_idx st)))
        | Ok b =>
            let st := with_board st b in
            match analyse_score st with
            | (Raise e, st) => (Throw e, st)
            | (Ok info_played, st) =>
                let s_played_white := _score_cp_white info_played in
                let loss := ply_loss stm_is_white s_best_white
                              (turn (ls_board st)) s_played_white in
                (Next, if stm_is_white then add_white st (Z.abs loss)
                       else add_black st (Z.abs loss))
            end
        end
    end.

(** The [for] loop: the exception that left it, if any, and the variables
    as they then are. *)
Fixpoint run_loop (us : list string) (st : loop_state) : option exn * loop_state :=
  match us with
  | [] => (None, st)
  | u :: us' =>
      match body st u with
      | (Next, st') => run_loop us' st'
      | (Break, st') => (None, st')
      | (Throw e, st') => (Some e, st')
      end
  end.

(** The three [except] clauses around the loop. *)
Definition handle (e : exn) (st : loop_state) : loop_state :=
  match e with
  | EngineTerminatedError _ => append_note st "engine terminated"
  | EngineError m => append_note st ("engine error: " +:+ m)
  | _ => append_note st ("exception: " +:+ str_of_exn e)
  end.

Definition initial_state (b : Board) (e : Engine) : loop_state :=
  {| ls_board := b; ls_engine := e; ls_notes := [];
     ls_acpl_w := 0; ls_acpl_b := 0; ls_n_w := 0; ls_n_b := 0; ls_ply_idx := 0 |}.

(** The variables after the [try] statement around the loop. *)
Definition after_loop (us : list string) (st : loop_state) : loop_state :=
  match run_loop us st with
  | (None, st') => st'
  | (Some e, st') => handle e st'
  end.

(** The statements after the loop. *)
Definition finish (gid ms : Z) (st : loop_state) : result analysis_row :=
  acpl_w ← truediv (IZR (ls_acpl_w st)) (Z.max 1 (ls_n_w st));
  acpl_b ← truediv (IZR (ls_acpl_b st)) (Z.max 1 (ls_n_b st));
  acc_w ← _acpl_to_accuracy acpl_w;
  acc_b ← _acpl_to_accuracy acpl_b;
  let note_str :=
    match ls_notes st with
    | [] => None
    | _ => Some (join "; " (ls_notes st))
    end in
  Ok {| game_id := gid; plies_analyzed := ls_n_w st + ls_n_b st;
        acpl_white := acpl_w; acpl_black := acpl_b;
        accuracy_white := acc_w; accuracy_black := acc_b;
        ms_total := ms; engine := "Stockfish"; movetime_ms := MOVETIME_MS;
        skipped_plies := SKIP_PLIES; notes := note_str |}.

(** [_analyze_job(job)], run on an engine in state [e]; [ms] is the time
    that the clock shows to have passed when the function returns. *)
Definition _analyze_job (ms : Z) (job : Job) (e : Engine)
  : result analysis_row * Engine :=
  match board_of_fen (initial_fen job) with
  | Raise err =>
      (Ok {| game_id := job_game_id job; plies_analyzed := 0;
             acpl_white := 0; acpl_black := 0;
             accuracy_white := 100; accuracy_black := 100;
             ms_total := ms; engine := "Stockfish"; movetime_ms := MOVETIME_MS;
             skipped_plies := SKIP_PLIES;
             notes := Some ("bad FEN: " +:+ str_of_exn err) |}, e)
  | Ok board =>
      let st := after_loop (uci_moves job) (initial_state board e) in
      (finish (job_game_id job) ms st, ls_engine st)
  end.

End Analyze.

(** ** Persistence *)

(** [ON CONFLICT(game_id) DO UPDATE SET ...]: every column but the key
    takes the value of the row that was to be inserted. *)
Definition do_update (excluded old : analysis_row) : analysis_row :=
  {| game_id := game_id old;
     plies_analyzed := plies_analyzed excluded;
     acpl_white := acpl_white excluded; acpl_black := acpl_black excluded;
     accuracy_white := accuracy_white excluded;
     accuracy_black := accuracy_black excluded;
     ms_total := ms_total excluded; engine := engine excluded;
     movetime_ms := movetime_ms excluded;
     skipped_plies := skipped_plies excluded; notes := notes excluded |}.

Definition has_row (gid : Z) (t : list analysis_row) : bool :=
  existsb (fun x => game_id x =? gid) t.

Definition has_game (gid : Z) (d : db) : bool :=
  existsb (fun g => g_id g =? gid) (games d).

(** One [INSERT ... ON CONFLICT(game_id) DO UPDATE].  A row whose key is
    taken is updated in place; a new row is inserted when its game exists
    and refused otherwise ([PRAGMA foreign_keys = ON]). *)
Definition upsert (r : analysis_row) : M () := fun d =>
  if has_row (game_id r) (analysis d) then
    (Ok (), set_analysis d
       (map (fun x => if game_id x =? game_id r then do_update r x else x)
            (analysis d)))
  else if has_game (game_id r) d then
    (Ok (), set_analysis d (analysis d ++ [r]))
  else (Raise (IntegrityError "FOREIGN KEY constraint failed"), d).

(** [cur.executemany(sql, rows)] *)
Fixpoint executemany (rows : list analysis_row) : M () :=
  match rows with
  | [] => mret ()
  | r :: rows' => upsert r ≫= fun _ => executemany rows'
  end.

(** The rows reach the file at [con.commit()]; when a statement raises,
    the commit is not reached and the file stays as it was. *)
Definition upsert_analysis_batch (rows : list analysis_row) : M () := fun d =>
  match rows with
  | [] => (Ok (), d)
  | _ =>
      match executemany rows d with
      | (Ok _, d') => (Ok (), d')
      | (Raise e, _) => (Raise e, d)
      end
  end.

(** [SELECT * FROM analysis WHERE game_id=?] *)
Definition analysis_of (gid : Z) (d : db) : list analysis_row :=
  List.filter (fun x => game_id x =? gid) (analysis d).

(** The constraints that the schema declares on [analysis]: the key is
    unique, and it references a stored game. *)
Definition analysis_key_unique (d : db) : Prop :=
  NoDup (map game_id (analysis d)).

(** The table after [upsert r]. *)
Definition upserted (r : analysis_row) (t : list analysis_row) : list analysis_row :=
  if has_row (game_id r) t
  then map (fun x => if game_id x =? game_id r then do_update r x else x) t
  else t ++ [r].

(** ** A scripted chess library

    An instance of the interface that can be run: the board is the list
    of the moves played from a position with White to move, a move
    shorter than four characters is illegal, the empty string is no FEN,
    and the engine answers from a script, one entry per call, and is
    gone when the script is used up. *)

Module Script.

Definition board_of_fen (fen : string) : result (list string) :=
  if String.eqb fen "" then Raise (ValueError "empty fen") else Ok [].

Definition turn (b : list string) : bool := Nat.even (length b).

Definition push_uci (b : list string) (u : string) : result (list string) :=
  if (String.length u <? 4)%nat
  then Raise (ValueError ("invalid uci: " +:+ u))
  else Ok (b ++ [u]).

Definition analyse (e : list (result Info)) (b : list string) (ms : Z)
  : result Info * list (result Info) :=
  match e with
  | [] => (Raise (EngineTerminatedError "engine process died"), [])
  | r :: e' => (r, e')
  end.

#[global] Instance lib : Lib := {|
  Board := list string;
  Engine := list (result Info);
  Chess.board_of_fen := board_of_fen;
  Chess.turn := turn;
  Chess.push_uci := push_uci;
  Chess.analyse := analyse;
|}.

(** An engine answer with a score relative to the side [t]. *)
Definition answer (s : Score) (t : bool) : result Info :=
  Ok {| info_score := Some {| relative := s; pov_turn := t |} |}.

(** A job on the scripted library, from the start position. *)
Definition job (fen : string) (us : list string) : Job :=
  {| job_game_id := 7; initial_fen := fen; uci_moves := us; tags := ∅ |}.

(** Answers for two scored plies, each losing 10 centipawns. *)
Definition two_plies : list (result Info) :=
  [answer (Cp 30) true; answer (Cp (-20)) false;
   answer (Cp 20) false; answer (Cp (-10)) true].

(** The loop state after these two plies. *)
Definition after_two_plies : loop_state :=
  {| ls_board := ["e2e4"; "e7e5"]; ls_engine := []; ls_notes := [];
     ls_acpl_w := 10; ls_acpl_b := 10; ls_n_w := 1; ls_n_b := 1;
     ls_ply_idx := 2 |}.

(** The loop state after the first of them. *)
Definition after_one_ply : loop_state :=
  {| ls_board := ["e2e4"]; ls_engine := [answer (Cp 20) false; answer (Cp (-10)) true];
     ls_notes := [];
     ls_acpl_w := 10; ls_acpl_b := 0; ls_n_w := 1; ls_n_b := 0;
     ls_ply_idx := 1 |}.

End Script.

(** ** Vocabulary of the statements about the loop *)

Section AnalyzeSpec.
Context {L : Lib}.

(** The accumulators and the counters of two states agree. *)
Definition same_acc (st st' : loop_state) : Prop :=
  ls_acpl_w st' = ls_acpl_w st /\ ls_acpl_b st' = ls_acpl_b st /\
  ls_n_w st' = ls_n_w st /\ ls_n_b st' = ls_n_b st.

(** What one pass of the body does, by the way it ends. *)
Inductive body_spec (st : loop_state) (u : string) : ctl -> loop_state -> Prop :=
| body_scored (best played : PovScore) (b : Board) (st1 st2 : loop_state) :
    analyse_score (with_ply_idx st (ls_ply_idx st + 1)) = (Ok best, st1) ->
    push_uci (ls_board st) u = Ok b ->
    analyse_score (with_board st1 b) = (Ok played, st2) ->
    let mover := turn (ls_board st) in
    let loss := ply_loss mover (_score_cp_white best) (turn b)
                  (_score_cp_white played) in
    body_spec st u Next
      (if mover then add_white st2 (Z.abs loss) else add_black st2 (Z.abs loss))
| body_illegal (best : PovScore) (e : exn) (st1 : loop_state) :
    analyse_score (with_ply_idx st (ls_ply_idx st + 1)) = (Ok best, st1) ->
    push_uci (ls_board st) u = Raise e ->
    body_spec st u Break
      (append_note st1 ("illegal move " +:+ u +:+ " at ply "
                        +:+ str_of_int (ls_ply_idx st + 1)))
| body_best_raised (e : exn) (st1 : loop_state) :
    analyse_score (with_ply_idx st (ls_ply_idx st + 1)) = (Raise e, st1) ->
    body_spec st u (Throw e) st1
| body_played_raised (best : PovScore) (b : Board) (e : exn)
    (st1 st2 : loop_state) :
    analyse_score (with_ply_idx st (ls_ply_idx st + 1)) = (Ok best, st1) ->
    push_uci (ls_board st) u = Ok b ->
    analyse_score (with_board st1 b) = (Raise e, st2) ->
    body_spec st u (Throw e) st2.

(** The state after the moves [us] when every one of them is scored:
    each pass through the body reaches its end. *)
Fixpoint scored_plies (us : list string) (st : loop_state) : option loop_state :=
  match us with
  | [] => Some st
  | u :: us' =>
      match body st u with
      | (Next, st') => scored_plies us' st'
      | _ => None
      end
  end.

(** The number of plies that [_analyze_job] evaluates for a side
    ([true] is White). *)
Definition evaluated_plies (side : bool) (job : Job) (e : Engine) : Z :=
  match board_of_fen (initial_fen job) with
  | Raise _ => 0
  | Ok b =>
      let st := after_loop (uci_moves job) (initial_state b e) in
      if side then ls_n_w st else ls_n_b st
  end.

Definition acpl_of (side : bool) (r : analysis_row) : R :=
  if side then acpl_white r else acpl_black r.

Definition accuracy_of (side : bool) (r : analysis_row) : R :=
  if side then accuracy_white r else accuracy_black r.

(** What the counters and accumulators satisfy throughout. *)
Definition acc_ok (st : loop_state) : Prop :=
  0 <= ls_n_w st /\ 0 <= ls_n_b st /\
  0 <= ls_acpl_w st /\ 0 <= ls_acpl_b st /\
  (ls_n_w st = 0 -> ls_acpl_w st = 0) /\
  (ls_n_b st = 0 -> ls_acpl_b st = 0).

End AnalyzeSpec.

(** ** Vocabulary of the statements about scores *)

(** The score reports a mate in White's favour: White mates in some
    plies, or has given mate. *)
Definition mate_for_white (ev : PovScore) : Prop :=
  white ev = MateGiven \/ exists n : Z, 0 < n /\ white ev = Mate n.

(** ** Vocabulary of the statements about the resolver *)

(** The stored moves of game [g] and the probe [uci_moves] agree on the
    first min(10, length of the probe) plies. *)
Definition prefix_matches (uci_moves : list string) (d : db) (g : Z) : Prop :=
  let k := Nat.min 10 (length uci_moves) in
  firstn k (stored_moves g d) = firstn k uci_moves.

(** The name is the name of a row of [players]. *)
Definition registered (name : string) (d : db) : Prop :=
  exists p : player_row, In p (players d) /\ p_name p = name.

(** A store with two players and two games between them that share the
    candidate key and differ from the first move on. *)
Module Sample.

Definition store : db :=
  {| players := [ {| p_id := 1; p_name := "Alice" |};
                  {| p_id := 2; p_name := "Bob" |} ];
     games := [ {| g_id := 11; g_white_id := 1; g_black_id := 2;
                   g_result := "1-0"; g_date := Some "2021-01-01";
                   g_ply_count := Some 2 |};
                {| g_id := 10; g_white_id := 1; g_black_id := 2;
                   g_result := "1-0"; g_date := Some "2021-01-01";
                   g_ply_count := Some 2 |};
                {| g_id := 12; g_white_id := 1; g_black_id := 2;
                   g_result := "1-0"; g_date := None;
                   g_ply_count := Some 2 |} ];
     moves := [ {| m_game_id := 11; m_ply := 2; m_uci := "e7e5" |};
                {| m_game_id := 10; m_ply := 1; m_uci := "d2d4" |};
                {| m_game_id := 11; m_ply := 1; m_uci := "e2e4" |};
                {| m_game_id := 10; m_ply := 2; m_uci := "d7d5" |} ];
     analysis := [] |}.

Definition tags (white black date : string) : gmap string string :=
  <["White" := white]> (<["Black" := black]> (<["Result" := "1-0"]>
    (<["Date" := date]> ∅))).

(** A result row for game [gid] with [n] plies. *)
Definition row (gid n : Z) (note : option string) : analysis_row :=
  {| game_id := gid; plies_analyzed := n; acpl_white := 0; acpl_black := 0;
     accuracy_white := 100; accuracy_black := 100; ms_total := 5;
     engine := "Stockfish"; movetime_ms := 20; skipped_plies := 0;
     notes := note |}.

(** A store without games. *)
Definition empty_store : db :=
  {| players := []; games := []; moves := []; analysis := [] |}.

End Sample.

(** ** PGN to jobs *)

(** What [chess.pgn.read_game] yields for one game, as far as the scan
    uses it: the headers, the FEN of [game.board()] (the call may raise),
    and for every move of the main line what [mv.uci()] does. *)
Record PgnGame : Type := {
  pg_headers : gmap string string;
  pg_board : result string;
  pg_mainline : list (result string);
}.

(** The loop [for mv in game.mainline_moves()]: the flag [ok] and the
    moves appended to [uci_moves]. *)
Fixpoint collect_ucis (mvs : list (result string)) (uci_moves : list string)
  : bool * list string :=
  match mvs with
  | [] => (true, uci_moves)
  | Ok u :: mvs' => collect_ucis mvs' (uci_moves ++ [u])
  | Raise _ :: _ => (false, uci_moves)
  end.

(** One pass of the loop [while True] of [scan_pgn_and_resolve_jobs], for
    a game that [read_game] returned. *)
Definition scan_game (game : PgnGame) (jobs : list Job) : M (list Job) :=
  let tags := pg_headers game in
  board_fen ← lift (pg_board game);
  let '(ok, uci_moves) := collect_ucis (pg_mainline game) [] in
  match ok, uci_moves with
  | true, _ :: _ =>
      gid ← resolve_game_id tags uci_moves;
      match gid with
      | Some id =>
          mret (jobs ++ [ {| job_game_id := id; initial_fen := board_fen;
                            uci_moves := uci_moves; tags := tags |} ])
      | None => mret jobs
      end
  | _, _ => mret jobs
  end.

Fixpoint scan_games (games : list PgnGame) (jobs : list Job) : M (list Job) :=
  match games with
  | [] => mret jobs
  | game :: games' => scan_game game jobs ≫= scan_games games'
  end.

(** [scan_pgn_and_resolve_jobs], on the games of the file in order. *)
Definition scan_pgn_and_resolve_jobs (games : list PgnGame) : M (list Job) :=
  scan_games games [].

(** ** Batched persistence: the end of [main] *)

Definition BATCH : nat := 400.

(** [range(0, stop, step)] for a positive step. *)
Definition range_step (stop step : nat) : list nat :=
  map (fun j => (j * step)%nat) (seq 0 ((stop + step - 1) / step)).

(** [l[i:j]] for [i <= j] *)
Definition slice {A} (l : list A) (i j : nat) : list A :=
  firstn (j - i) (skipn i l).

(** [for i in starts: upsert_analysis_batch(rows[i:i+BATCH])] *)
Fixpoint upsert_from (rows : list analysis_row) (starts : list nat) : M () :=
  match starts with
  | [] => mret ()
  | i :: starts' =>
      upsert_analysis_batch (slice rows i (i + BATCH)) ≫= fun _ =>
      upsert_from rows starts'
  end.

(** [rows.sort(key=lambda r: r[0])] and the loop over the batches. *)
Definition persist_rows (rows : list analysis_row) : M () :=
  let rows := order_by game_id rows in
  upsert_from rows (range_step (length rows) BATCH).

(** The foreign key of [analysis]: every row is the row of a stored
    game. *)
Definition analysis_refs_games (d : db) : Prop :=
  forall r : analysis_row, In r (analysis d) -> has_game (game_id r) d = true.

(** The last row of [rows] for the game [gid]. *)
Definition last_row_of (gid : Z) (rows : list analysis_row) : option analysis_row :=
  fold_left (fun found r => if game_id r =? gid then Some r else found) rows None.

(** ** The loader's date, from [matrix.py] *)

Definition is_leap (y : Z) : bool :=
  (y mod 4 =? 0) && (negb (y mod 100 =? 0) || (y mod 400 =? 0)).

Definition days_in_month (y m : Z) : Z :=
  if m =? 2 then (if is_leap y then 29 else 28)
  else if (m =? 4) || (m =? 6) || (m =? 9) || (m =? 11) then 30
  else 31.

(** [dt.date(y, m, d).isoformat()]: the constructor refuses a year
    outside 1..9999, a month outside 1..12 and a day that the month does
    not have. *)
Definition date_isoformat (y m d : Z) : result string :=
  if (1 <=? y) && (y <=? 9999) && (1 <=? m) && (m <=? 12)
     && (1 <=? d) && (d <=? days_in_month y m)
  then Ok (format_0d 4 y +:+ "-" +:+ format_0d 2 m +:+ "-" +:+ format_0d 2 d)
  else Raise (ValueError "date value out of range").

Definition parse_pgn_date (s : option string) : result (option string) :=
  match s with
  | None => Ok None
  | Some s =>
      if String.eqb s "" || startswith s "?" then Ok None
      else
        let parts := split "." s in
        match
          (p0 ← index parts 0;
           y ← int p0;
           p1 ← index parts 1;
           m ← (if String.eqb p1 "??" then Ok 1 else int p1);
           p2 ← index parts 2;
           d ← (if String.eqb p2 "??" then Ok 1 else int p2);
           iso ← date_isoformat y m d;
           Ok (Some iso))
        with
        | Ok v => Ok v
        | Raise _ => Ok None
        end
  end.

(** ** Vocabulary of the statements about dates *)

(** A PGN date tag as the standard writes it, [YYYY.MM.DD], and the ISO
    form [YYYY-MM-DD] of the same three numbers. *)
Definition pgn_date (y m d : Z) : string :=
  format_0d 4 y +:+ "." +:+ format_0d 2 m +:+ "." +:+ format_0d 2 d.

Definition iso_date (y m d : Z) : string :=
  format_0d 4 y +:+ "-" +:+ format_0d 2 m +:+ "-" +:+ format_0d 2 d.

Fixpoint no_dot (s : string) : bool :=
  match s with
  | EmptyString => true
  | String c s' => negb (Ascii.eqb c ".") && no_dot s'
  end.

(** What the date parsers need of the field [f"{z:0{w}d}"]: it has no
    dot, it is not empty, it neither is ["??"] nor starts with ["?"], and
    [int] reads [z] back from it. *)
Definition field_ok (w : nat) (z : Z) : bool :=
  let s := format_0d w z in
  no_dot s && negb (String.eqb s "") && negb (String.eqb s "??")
  && negb (startswith s "?")
  && match int s with Ok v => v =? z | Raise _ => false end.

(** The integers [0 .. n-1]. *)
Definition upto (n : nat) : list Z := map Z.of_nat (seq 0 n).

(** ** Vocabulary of the statements about the scan *)

(** The job that a game of the file gives over the store [d], if any:
    its moves all have a UCI form, there is at least one, and the
    resolver finds the game. *)
Definition job_for (d : db) (game : PgnGame) : option Job :=
  match pg_board game, collect_ucis (pg_mainline game) [] with
  | Ok board_fen, (true, u :: us) =>
      match fst (resolve_game_id (pg_headers game) (u :: us) d) with
      | Ok (Some id) =>
          Some {| job_game_id := id; initial_fen := board_fen;
                  uci_moves := u :: us; tags := pg_headers game |}
      | _ => None
      end
  | _, _ => None
  end.

(** The sample store's second game as the file has it. *)
Definition sample_pgn_game : PgnGame :=
  {| pg_headers := Sample.tags "Alice" "Bob" "2021.01.01";
     pg_board := Ok "startpos";
     pg_mainline := [Ok "e2e4"; Ok "e7e5"] |}.

(** ** Vocabulary of the statements about persistence *)

(** The store takes the row: its game is stored, or a row of its game is
    there to be updated. *)
Definition accepts (d : db) (r : analysis_row) : Prop :=
  has_game (game_id r) d = true \/ has_row (game_id r) (analysis d) = true.

(** The tables that the pipeline only reads. *)
Definition same_games (d d' : db) : Prop :=
  players d' = players d /\ games d' = games d /\ moves d' = moves d.

(** * Properties *)

(** ** The Python primitives on samples *)

Example int_samples :
  int " 5 " = Ok 5 /\ int "-0012" = Ok (-12) /\ int "1_000" = Ok 1000 /\
  int "1__0" = Raise invalid_literal /\ int "+" = Raise invalid_literal /\
  int "??" = Raise invalid_literal /\ int "" = Raise invalid_literal.
Proof. repeat split; reflexivity. Qed.

Example format_samples :
  format_0d 4 5 = "0005" /\ format_0d 4 (-5) = "-005" /\
  format_0d 2 (-5) = "-5" /\ format_0d 4 12345 = "12345" /\
  format_0d 2 0 = "00" /\ str_of_int 120 = "120" /\ str_of_int (-7) = "-7".
Proof. repeat split; reflexivity. Qed.

Example split_samples :
  split "." "a.b..c" = ["a"; "b"; ""; "c"] /\ split "." "" = [""] /\
  split "." "." = [""; ""] /\ strip "  a b " = "a b".
Proof. repeat split; reflexivity. Qed.

Example parse_samples :
  parse_pgn_date_to_iso (Some "2021.??.??") = Ok (Some "2021-01-01") /\
  parse_pgn_date_to_iso (Some "2021.05.??") = Ok (Some "2021-05-01") /\
  parse_pgn_date_to_iso (Some "2021.5.17") = Ok (Some "2021-05-17") /\
  parse_pgn_date_to_iso (Some "????.??.??") = Ok None /\
  parse_pgn_date_to_iso (Some "2021") = Ok None /\
  parse_pgn_date_to_iso (Some "2021.xx.01") = Ok None /\
  parse_pgn_date_to_iso (Some "") = Ok None /\
  parse_pgn_date_to_iso None = Ok None.
Proof. repeat split; reflexivity. Qed.

(** ** Mate scores *)

Lemma white_mate_is_mate (ev : PovScore) (n : Z) :
  white ev = Mate n -> is_mate ev = true.
Proof.
  unfold is_mate, white. destruct (pov_turn ev).
  - intros ->. reflexivity.
  - destruct (relative ev) as [c|m|]; simpl; try reflexivity. discriminate.
Qed.

Lemma score_cp_white_mate_in (n : Z) (ev : PovScore) :
  white ev = Mate n ->
  _score_cp_white ev = if 0 <? n then 100000 else -100000.
Proof.
  intros Hw. unfold _score_cp_white.
  rewrite (white_mate_is_mate ev n Hw), Hw. simpl.
  destruct (Z.eqb_spec n 0) as [->|Hn]; reflexivity.
Qed.

Lemma score_cp_white_not_mate (ev : PovScore) (n : Z) :
  relative ev = Cp n -> _score_cp_white ev = pov (pov_turn ev) n.
Proof.
  intros Hr. unfold _score_cp_white, is_mate, white, pov. rewrite Hr. simpl.
  destruct (pov_turn ev); reflexivity.
Qed.

(** A mate score is never passed on as a count of plies: the conversion
    returns one of the two sentinels. *)
Lemma score_cp_white_mate_clamped (ev : PovScore) :
  is_mate ev = true ->
  _score_cp_white ev = 100000 \/ _score_cp_white ev = -100000.
Proof.
  intros Hm. unfold _score_cp_white. rewrite Hm.
  destruct (mate (white ev)) as [n|]; [|right; reflexivity].
  destruct (negb (n =? 0) && (0 <? n)); [left|right]; reflexivity.
Qed.

(** Apart from the given mate, the sentinel has the sign of the mate. *)
Lemma score_cp_white_mate_sign (ev : PovScore) :
  is_mate ev = true -> white ev <> MateGiven ->
  (mate_for_white ev -> _score_cp_white ev = 100000) /\
  (~ mate_for_white ev -> _score_cp_white ev = -100000).
Proof.
  intros Hm Hg. unfold mate_for_white.
  destruct (white ev) as [c|n|] eqn:Hw; [|
    rewrite (score_cp_white_mate_in n ev Hw);
    destruct (Z.ltb_spec 0 n) as [Hn|Hn] |contradiction].
  - exfalso. unfold is_mate, white in *.
    destruct (pov_turn ev); destruct (relative ev) as [c'|m|];
      simpl in *; try discriminate.
    destruct (m =? 0); discriminate.
  - split; [reflexivity|]. intros Hno. exfalso. apply Hno. right. eauto.
  - split; [|reflexivity]. intros [H|(m & Hpos & H)]; [discriminate|].
    injection H as ->. lia.
Qed.

(** C4, at the evaluation of a position in which Black, to move, is
    checkmated (the engine's "mate 0" with Black to move): from White's
    side the score is the given mate, the conversion nevertheless returns
    -100000, where [score] with the same sentinel returns +100000, and the
    value normalised to the side to move, which is mated, is +100000. *)
Theorem score_cp_white_mate_given_negative :
  let ev := {| relative := Mate 0; pov_turn := false |} in
  is_mate ev = true /\ white ev = MateGiven /\ mate_for_white ev /\
  _score_cp_white ev = -100000 /\
  score (white ev) 100000 = 100000 /\
  pov (pov_turn ev) (_score_cp_white ev) = 100000.
Proof.
  cbv zeta. split; [reflexivity|]. split; [reflexivity|].
  split; [left; reflexivity|]. repeat split; reflexivity.
Qed.

(** ** The accuracy mapping *)

Lemma fmax_Rmax (a b : R) : fmax a b = Rmax a b.
Proof. unfold fmax, Rmax. destruct (Rlt_dec a b), (Rle_dec a b); lra. Qed.

Lemma acpl_to_accuracy_value (acpl : R) :
  _acpl_to_accuracy acpl = Ok (Rmax 0 (100 - 0.5 * sqrt (Rmax 0 acpl)))%R.
Proof.
  unfold _acpl_to_accuracy, math_sqrt. rewrite !fmax_Rmax.
  destruct (Rlt_dec (Rmax 0 acpl) 0) as [H|H].
  - exfalso. pose proof (Rmax_l 0 acpl). lra.
  - cbn. rewrite fmax_Rmax. reflexivity.
Qed.

Lemma acpl_to_accuracy_zero : _acpl_to_accuracy 0 = Ok 100%R.
Proof.
  rewrite acpl_to_accuracy_value. f_equal.
  rewrite (Rmax_left 0 0) by lra. rewrite sqrt_0.
  rewrite Rmax_right by lra. lra.
Qed.

(** C3: on a non-negative average loss the mapping returns
    max(0, 100 - 0.5 * sqrt(max(0, acpl))); the value lies between 0 and
    100, it is 100 at 0, and a greater loss never gives a greater value. *)
Theorem acpl_to_accuracy_bounds_monotone (acpl : R) :
  (0 <= acpl)%R ->
  exists acc : R,
    _acpl_to_accuracy acpl = Ok acc /\
    acc = Rmax 0 (100 - 0.5 * sqrt (Rmax 0 acpl)) /\
    (0 <= acc <= 100)%R /\
    _acpl_to_accuracy 0 = Ok 100%R /\
    (forall acpl' acc' : R,
        (acpl <= acpl')%R -> _acpl_to_accuracy acpl' = Ok acc' ->
        (acc' <= acc)%R).
Proof.
  intros Hpos. eexists. split; [apply acpl_to_accuracy_value|].
  split; [reflexivity|].
  pose proof (sqrt_pos (Rmax 0 acpl)) as Hs.
  split; [|split; [apply acpl_to_accuracy_zero|]].
  - split; [apply Rmax_l|]. apply Rmax_lub; lra.
  - intros acpl' acc' Hle Hacc. rewrite acpl_to_accuracy_value in Hacc.
    injection Hacc as <-.
    assert (Hm : (sqrt (Rmax 0 acpl) <= sqrt (Rmax 0 acpl'))%R).
    { apply sqrt_le_1_alt. rewrite !Rmax_right by lra. exact Hle. }
    apply Rmax_lub; [apply Rmax_l|].
    eapply Rle_trans; [|apply Rmax_r]. lra.
Qed.

Lemma acpl_to_accuracy_bounds_monotone_witness :
  exists acc : R,
    _acpl_to_accuracy 400 = Ok acc /\
    acc = Rmax 0 (100 - 0.5 * sqrt (Rmax 0 400)) /\
    (0 <= acc <= 100)%R /\
    _acpl_to_accuracy 0 = Ok 100%R /\
    (forall acpl' acc' : R,
        (400 <= acpl')%R -> _acpl_to_accuracy acpl' = Ok acc' ->
        (acc' <= acc)%R).
Proof. apply (acpl_to_accuracy_bounds_monotone 400). lra. Defined.

(** ** The loop of [_analyze_job] *)

Section AnalyzeProps.
Context {L : Lib}.

Lemma analyse_score_same (st : loop_state) :
  same_acc st (snd (analyse_score st)) /\
  ls_notes (snd (analyse_score st)) = ls_notes st /\
  ls_board (snd (analyse_score st)) = ls_board st /\
  ls_ply_idx (snd (analyse_score st)) = ls_ply_idx st.
Proof.
  unfold analyse_score, same_acc.
  destruct (analyse (ls_engine st) (ls_board st) MOVETIME_MS) as [r e].
  cbn. auto.
Qed.

Lemma body_cases (st : loop_state) (u : string) :
  body_spec st u (fst (body st u)) (snd (body st u)).
Proof.
  unfold body. cbn.
  pose proof (analyse_score_same (with_ply_idx st (ls_ply_idx st + 1))) as H1.
  destruct (analyse_score (with_ply_idx st (ls_ply_idx st + 1)))
    as [[best|e] st1] eqn:E1; cbn in H1.
  2:{ cbn. apply body_best_raised. exact E1. }
  destruct H1 as (_ & _ & Hb & Hi).
  rewrite Hb, Hi.
  destruct (push_uci (ls_board st) u) as [b|e] eqn:E2.
  2:{ cbn. eapply body_illegal; eauto. }
  pose proof (analyse_score_same (with_board st1 b)) as H2.
  destruct (analyse_score (with_board st1 b)) as [[played|e] st2] eqn:E3;
    cbn in H2.
  2:{ cbn. eapply body_played_raised; eauto. }
  destruct H2 as (_ & _ & Hb2 & _). cbn. rewrite Hb2.
  eapply body_scored; eauto.
Qed.

Lemma analyse_score_inv (st st1 : loop_state) (ev : PovScore) :
  analyse_score st = (Ok ev, st1) ->
  exists (i : Info) (e : Engine),
    analyse (ls_engine st) (ls_board st) MOVETIME_MS = (Ok i, e) /\
    get_score i = Ok ev /\ st1 = with_engine st e.
Proof.
  unfold analyse_score.
  destruct (analyse (ls_engine st) (ls_board st) MOVETIME_MS) as [[i|x] e];
    cbn; intros H; [|discriminate].
  destruct (get_score i) as [ev'|x] eqn:G; [|discriminate].
  injection H as -> <-. eauto.
Qed.

Lemma analyse_score_acc (st st1 : loop_state) (r : result PovScore) :
  analyse_score st = (r, st1) ->
  same_acc st st1 /\ ls_notes st1 = ls_notes st.
Proof.
  intros H. pose proof (analyse_score_same st) as S. rewrite H in S.
  cbn in S. tauto.
Qed.

(** The fields of the state after one pass, by the way it ends. *)
Lemma body_spec_next (st st' : loop_state) (u : string) :
  body_spec st u Next st' ->
  ls_notes st' = ls_notes st /\
  exists loss : Z, 0 <= loss /\
    if turn (ls_board st)
    then ls_acpl_w st' = ls_acpl_w st + loss /\ ls_acpl_b st' = ls_acpl_b st /\
         ls_n_w st' = ls_n_w st + 1 /\ ls_n_b st' = ls_n_b st
    else ls_acpl_b st' = ls_acpl_b st + loss /\ ls_acpl_w st' = ls_acpl_w st /\
         ls_n_b st' = ls_n_b st + 1 /\ ls_n_w st' = ls_n_w st.
Proof.
  inversion 1 as [best played b st1 st2 E1 E2 E3 mover loss Hst| | |]; subst.
  apply analyse_score_acc in E1 as ((A1 & A2 & A3 & A4) & N1).
  apply analyse_score_acc in E3 as ((B1 & B2 & B3 & B4) & N2).
  cbn in *.
  split.
  - destruct mover; cbn; congruence.
  - exists (Z.abs loss). split; [lia|].
    fold mover. destruct mover; cbn; repeat split; congruence.
Qed.

Lemma body_spec_stop (st st' : loop_state) (u : string) (c : ctl) :
  body_spec st u c st' -> c <> Next ->
  same_acc st st' /\
  match c with
  | Break => ls_notes st' <> []
  | _ => ls_notes st' = ls_notes st
  end.
Proof.
  inversion 1 as [|best e st1 E1 E2|e st1 E1|best b e st1 st2 E1 E2 E3];
    subst; intros Hc; [congruence| | |].
  - apply analyse_score_acc in E1 as (A & N1). split; [exact A|].
    cbn. intros Hn. apply app_eq_nil in Hn as [_ Hn]. discriminate.
  - apply analyse_score_acc in E1 as (A & N1). auto.
  - apply analyse_score_acc in E1 as ((A1 & A2 & A3 & A4) & N1).
    apply analyse_score_acc in E3 as ((B1 & B2 & B3 & B4) & N2).
    cbn in *. unfold same_acc. repeat split; congruence.
Qed.

Lemma body_acc_ok (st : loop_state) (u : string) :
  acc_ok st -> acc_ok (snd (body st u)).
Proof.
  intros (H1 & H2 & H3 & H4 & H5 & H6).
  pose proof (body_cases st u) as B.
  destruct (body st u) as [c st']. cbn in *.
  destruct c.
  - apply body_spec_next in B as (_ & loss & Hl & F).
    unfold acc_ok. destruct (turn (ls_board st));
      destruct F as (F1 & F2 & F3 & F4); rewrite F1, F2, F3, F4;
      repeat split; try lia; auto.
  - apply body_spec_stop in B as ((F1 & F2 & F3 & F4) & _); [|discriminate].
    unfold acc_ok. rewrite F1, F2, F3, F4. auto 10.
  - apply body_spec_stop in B as ((F1 & F2 & F3 & F4) & _); [|discriminate].
    unfold acc_ok. rewrite F1, F2, F3, F4. auto 10.
Qed.

Lemma run_loop_acc_ok (us : list string) (st : loop_state) :
  acc_ok st -> acc_ok (snd (run_loop us st)).
Proof.
  revert st. induction us as [|u us IH]; intros st H; [exact H|].
  pose proof (body_acc_ok st u H) as B. simpl.
  destruct (body st u) as [[| |e] st']; simpl in *;
    [apply IH|..]; exact B.
Qed.

Lemma handle_same (e : exn) (st : loop_state) :
  same_acc st (handle e st) /\ ls_notes (handle e st) <> [].
Proof.
  split.
  - destruct e; cbn; unfold same_acc; auto.
  - destruct e; cbn; intros Hn; apply app_eq_nil in Hn as [_ Hn];
      discriminate.
Qed.

Lemma after_loop_acc_ok (us : list string) (st : loop_state) :
  acc_ok st -> acc_ok (after_loop us st).
Proof.
  intros H. unfold after_loop.
  pose proof (run_loop_acc_ok us st H) as R.
  destruct (run_loop us st) as [[e|] st']; cbn in *; [|exact R].
  destruct (handle_same e st') as ((F1 & F2 & F3 & F4) & _).
  unfold acc_ok in *. rewrite F1, F2, F3, F4. exact R.
Qed.

Lemma initial_state_acc_ok (b : Board) (e : Engine) :
  acc_ok (initial_state b e).
Proof. unfold acc_ok. cbn. lia. Qed.

Lemma truediv_max (a : R) (n : Z) :
  truediv a (Z.max 1 n) = Ok (a / IZR (Z.max 1 n))%R.
Proof. unfold truediv. destruct (Z.eqb_spec (Z.max 1 n) 0); [lia|reflexivity]. Qed.

(** The statements after the loop never raise. *)
Lemma finish_ok (gid ms : Z) (st : loop_state) :
  exists r : analysis_row,
    finish gid ms st = Ok r /\
    game_id r = gid /\
    plies_analyzed r = ls_n_w st + ls_n_b st /\
    acpl_white r = (IZR (ls_acpl_w st) / IZR (Z.max 1 (ls_n_w st)))%R /\
    acpl_black r = (IZR (ls_acpl_b st) / IZR (Z.max 1 (ls_n_b st)))%R /\
    _acpl_to_accuracy (acpl_white r) = Ok (accuracy_white r) /\
    _acpl_to_accuracy (acpl_black r) = Ok (accuracy_black r) /\
    notes r = match ls_notes st with
              | [] => None
              | _ => Some (join "; " (ls_notes st))
              end.
Proof.
  unfold finish. rewrite !truediv_max. cbn.
  rewrite !acpl_to_accuracy_value. cbn.
  eexists. split; [reflexivity|]. cbn.
  rewrite !acpl_to_accuracy_value. repeat split; reflexivity.
Qed.

(** [_analyze_job] returns a row whatever the board and the engine do. *)
Lemma analyze_job_returns (ms : Z) (job : Job) (e : Engine) :
  exists r : analysis_row,
    fst (_analyze_job ms job e) = Ok r /\ game_id r = job_game_id job.
Proof.
  unfold _analyze_job. destruct (board_of_fen (initial_fen job)) as [b|err].
  - cbn. destruct (finish_ok (job_game_id job) ms
                     (after_loop (uci_moves job) (initial_state b e)))
      as (r & Hr & Hg & _).
    eauto.
  - cbn. eauto.
Qed.

(** C2: when a ply is scored, the engine was asked before and after the
    move; with [best] the first answer seen by the mover and [after] the
    second answer, seen by the side then to move, with its sign flipped,
    the mover's accumulator grows by max(0, best - after), which is never
    negative and is zero when the move does not worsen the mover's score;
    the other side's accumulator stays.  When the move passes the turn,
    [after] is the second answer seen by the mover. *)
Theorem scored_ply_adds_clamped_loss (st st' : loop_state) (u : string) :
  body st u = (Next, st') ->
  exists (i1 i2 : Info) (e1 e2 : Engine) (ev1 ev2 : PovScore) (b : Board),
    analyse (ls_engine st) (ls_board st) MOVETIME_MS = (Ok i1, e1) /\
    get_score i1 = Ok ev1 /\
    push_uci (ls_board st) u = Ok b /\
    analyse e1 b MOVETIME_MS = (Ok i2, e2) /\
    get_score i2 = Ok ev2 /\
    let mover := turn (ls_board st) in
    let best := pov mover (_score_cp_white ev1) in
    let after := - pov (turn b) (_score_cp_white ev2) in
    let loss := Z.max 0 (best - after) in
    0 <= loss /\
    (best <= after -> loss = 0) /\
    (turn b = negb mover -> after = pov mover (_score_cp_white ev2)) /\
    if mover
    then ls_acpl_w st' = ls_acpl_w st + loss /\ ls_n_w st' = ls_n_w st + 1 /\
         ls_acpl_b st' = ls_acpl_b st /\ ls_n_b st' = ls_n_b st
    else ls_acpl_b st' = ls_acpl_b st + loss /\ ls_n_b st' = ls_n_b st + 1 /\
         ls_acpl_w st' = ls_acpl_w st /\ ls_n_w st' = ls_n_w st.
Proof.
  intros Hb. pose proof (body_cases st u) as B. rewrite Hb in B. cbn in B.
  inversion B as [best played b st1 st2 E1 E2 E3 mover loss Hst| | |]; subst.
  pose proof (analyse_score_acc _ _ _ E1) as ((A1 & A2 & A3 & A4) & _).
  pose proof (analyse_score_acc _ _ _ E3) as ((B1 & B2 & B3 & B4) & _).
  apply analyse_score_inv in E1 as (i1 & e1 & Ha1 & Hg1 & ->).
  apply analyse_score_inv in E3 as (i2 & e2 & Ha2 & Hg2 & ->).
  cbn in *.
  exists i1, i2, e1, e2, best, played, b.
  repeat (split; [assumption|]).
  fold mover. unfold ply_loss in loss.
  assert (Habs : Z.abs loss = loss) by (subst loss; lia).
  split; [lia|]. split; [lia|]. split.
  - intros ->. unfold pov. destruct mover; cbn; lia.
  - destruct mover; cbn; rewrite Habs; subst loss; repeat split; lia.
Qed.

Lemma scored_plies_run_loop (pre rest : list string) (st st_k : loop_state) :
  scored_plies pre st = Some st_k ->
  run_loop (pre ++ rest) st = run_loop rest st_k.
Proof.
  revert st. induction pre as [|u pre IH]; intros st H; simpl in *.
  - injection H as ->. reflexivity.
  - destruct (body st u) as [[| |x] st1]; try discriminate. apply IH, H.
Qed.

Lemma scored_plies_count (pre : list string) (st st_k : loop_state) :
  scored_plies pre st = Some st_k ->
  ls_n_w st_k + ls_n_b st_k = ls_n_w st + ls_n_b st + Z.of_nat (length pre) /\
  ls_notes st_k = ls_notes st.
Proof.
  revert st. induction pre as [|u pre IH]; intros st H; simpl in H.
  - injection H as ->. simpl. split; [lia|reflexivity].
  - pose proof (body_cases st u) as B.
    destruct (body st u) as [[| |x] st1]; try discriminate. cbn in B.
    apply body_spec_next in B as (N & loss & _ & F).
    apply IH in H as (C & N'). rewrite N', N. split; [|reflexivity].
    rewrite C. change (length (u :: pre)) with (S (length pre)).
    destruct (turn (ls_board st)); lia.
Qed.

(** The state in which an interrupted job leaves the loop. *)
Lemma after_loop_interrupted (pre post : list string) (u : string)
    (st st_k : loop_state) :
  scored_plies pre st = Some st_k ->
  fst (body st_k u) <> Next ->
  same_acc st_k (after_loop (pre ++ u :: post) st) /\
  ls_notes (after_loop (pre ++ u :: post) st) <> [].
Proof.
  intros Hs Hn. unfold after_loop.
  rewrite (scored_plies_run_loop pre (u :: post) st st_k Hs). simpl.
  pose proof (body_cases st_k u) as B.
  destruct (body st_k u) as [[| |x] st1]; cbn in *; [congruence| |].
  - apply body_spec_stop in B as (A & N); [|discriminate]. auto.
  - apply body_spec_stop in B as ((A1 & A2 & A3 & A4) & N); [|discriminate].
    destruct (handle_same x st1) as ((F1 & F2 & F3 & F4) & N').
    split; [|exact N']. unfold same_acc. repeat split; congruence.
Qed.

Lemma after_loop_scored (pre : list string) (st st_k : loop_state) :
  scored_plies pre st = Some st_k -> after_loop pre st = st_k.
Proof.
  intros Hs. unfold after_loop.
  pose proof (scored_plies_run_loop pre [] st st_k Hs) as R.
  rewrite app_nil_r in R. rewrite R. reflexivity.
Qed.

(** C6: when the first [k] moves [pre] of a job are scored and the pass
    for the next move [u] does not reach its end (the engine is gone or
    fails, or the move is illegal), [_analyze_job] still returns a row;
    its count of plies is [k], its note is not null, and its average
    losses are those of the job that stops after [pre], that is the sums
    over the scored plies divided by their numbers per side. *)
Theorem interrupted_job_reports_scored_plies
    (ms gid : Z) (fen : string) (tg : gmap string string)
    (pre post : list string) (u : string)
    (e : Engine) (b : Board) (st_k : loop_state) :
  board_of_fen fen = Ok b ->
  scored_plies pre (initial_state b e) = Some st_k ->
  fst (body st_k u) <> Next ->
  exists r r_pre : analysis_row,
    fst (_analyze_job ms {| job_game_id := gid; initial_fen := fen;
                            uci_moves := pre ++ u :: post; tags := tg |} e)
      = Ok r /\
    fst (_analyze_job ms {| job_game_id := gid; initial_fen := fen;
                            uci_moves := pre; tags := tg |} e)
      = Ok r_pre /\
    plies_analyzed r = Z.of_nat (length pre) /\
    notes r <> None /\
    acpl_white r = acpl_white r_pre /\
    acpl_black r = acpl_black r_pre /\
    ls_n_w st_k + ls_n_b st_k = Z.of_nat (length pre) /\
    acpl_white r = (IZR (ls_acpl_w st_k) / IZR (Z.max 1 (ls_n_w st_k)))%R /\
    acpl_black r = (IZR (ls_acpl_b st_k) / IZR (Z.max 1 (ls_n_b st_k)))%R.
Proof.
  intros Hf Hs Hn. unfold _analyze_job. cbn. rewrite Hf. cbn.
  destruct (after_loop_interrupted pre post u _ _ Hs Hn)
    as ((A1 & A2 & A3 & A4) & N).
  rewrite (after_loop_scored pre _ _ Hs).
  destruct (scored_plies_count pre _ _ Hs) as (C & _). cbn in C.
  destruct (finish_ok gid ms
              (after_loop (pre ++ u :: post) (initial_state b e)))
    as (r & Hr & _ & Hp & Hw & Hb & _ & _ & Hnote).
  destruct (finish_ok gid ms st_k) as (r' & Hr' & _ & _ & Hw' & Hb' & _).
  exists r, r'. rewrite Hr, Hr'.
  rewrite Hp, Hw, Hb, Hw', Hb', A1, A2, A3, A4, Hnote.
  repeat split; try reflexivity; try lia.
  destruct (ls_notes (after_loop (pre ++ u :: post) (initial_state b e)));
    [congruence|discriminate].
Qed.

(** C5: when no ply was evaluated for a side, [_analyze_job] returns a
    row (the division does not raise) in which that side's average loss
    is 0 and its accuracy is 100. *)
Theorem empty_side_zero_loss_full_accuracy
    (side : bool) (ms : Z) (job : Job) (e : Engine) :
  evaluated_plies side job e = 0 ->
  exists r : analysis_row,
    fst (_analyze_job ms job e) = Ok r /\
    acpl_of side r = 0%R /\ accuracy_of side r = 100%R.
Proof.
  unfold evaluated_plies, _analyze_job.
  destruct (board_of_fen (initial_fen job)) as [b|err]; cbn.
  - intros Hz.
    pose proof (after_loop_acc_ok (uci_moves job) _ (initial_state_acc_ok b e))
      as (_ & _ & _ & _ & Zw & Zb).
    destruct (finish_ok (job_game_id job) ms
                (after_loop (uci_moves job) (initial_state b e)))
      as (r & Hr & _ & _ & Hw & Hb & Aw & Ab & _).
    exists r. split; [exact Hr|].
    assert (Hdiv : forall n : Z, (IZR 0 / IZR (Z.max 1 n) = 0)%R).
    { intros n. unfold Rdiv. apply Rmult_0_l. }
    destruct side; cbn.
    + rewrite (Zw Hz) in Hw. rewrite Hdiv in Hw. rewrite Hw in Aw.
      rewrite acpl_to_accuracy_zero in Aw. injection Aw as <-. auto.
    + rewrite (Zb Hz) in Hb. rewrite Hdiv in Hb. rewrite Hb in Ab.
      rewrite acpl_to_accuracy_zero in Ab. injection Ab as <-. auto.
  - intros _. eexists. split; [reflexivity|]. destruct side; cbn; auto.
Qed.

(** C10: when the initial position does not make a board,
    [_analyze_job] returns, without raising, a row with no ply analysed,
    average loss 0 and accuracy 100 for both sides, and a note that
    begins with "bad FEN". *)
Theorem bad_fen_row (ms : Z) (job : Job) (e : Engine) (err : exn) :
  board_of_fen (initial_fen job) = Raise err ->
  exists r : analysis_row,
    fst (_analyze_job ms job e) = Ok r /\
    game_id r = job_game_id job /\
    plies_analyzed r = 0 /\
    acpl_white r = 0%R /\ acpl_black r = 0%R /\
    accuracy_white r = 100%R /\ accuracy_black r = 100%R /\
    exists rest : string, notes r = Some ("bad FEN" +:+ rest).
Proof.
  intros Hf. unfold _analyze_job. rewrite Hf. cbn.
  eexists. split; [reflexivity|]. cbn. repeat split.
  exists (": " +:+ str_of_exn err). reflexivity.
Qed.

(** The three ways in which a pass through the body is cut short: the
    engine raises at the first call, the move is illegal, or the engine
    raises at the second call. *)
Lemma body_interrupted_by (st : loop_state) (u : string) :
  (forall (x : exn) (e1 : Engine),
      analyse (ls_engine st) (ls_board st) MOVETIME_MS = (Raise x, e1) ->
      fst (body st u) = Throw x) /\
  (forall (i1 : Info) (e1 : Engine) (ev1 : PovScore) (x : exn),
      analyse (ls_engine st) (ls_board st) MOVETIME_MS = (Ok i1, e1) ->
      get_score i1 = Ok ev1 ->
      push_uci (ls_board st) u = Raise x ->
      fst (body st u) = Break) /\
  (forall (i1 : Info) (e1 e2 : Engine) (ev1 : PovScore) (b : Board) (x : exn),
      analyse (ls_engine st) (ls_board st) MOVETIME_MS = (Ok i1, e1) ->
      get_score i1 = Ok ev1 ->
      push_uci (ls_board st) u = Ok b ->
      analyse e1 b MOVETIME_MS = (Raise x, e2) ->
      fst (body st u) = Throw x).
Proof.
  unfold body, analyse_score. cbn. repeat split.
  - intros x e1 ->. reflexivity.
  - intros i1 e1 ev1 x -> Hg Hp. cbn. rewrite Hg. cbn. rewrite Hp. reflexivity.
  - intros i1 e1 e2 ev1 b x -> Hg Hp Ha. cbn. rewrite Hg. cbn. rewrite Hp.
    cbn. rewrite Ha. reflexivity.
Qed.

End AnalyzeProps.

(** The theorems about the loop, at runs of the scripted library. *)

Lemma scored_ply_adds_clamped_loss_witness :
  let st := initial_state (L := Script.lib) [] Script.two_plies in
  let st' := Script.after_one_ply in
  let u := "e2e4" in
  exists (i1 i2 : Info) (e1 e2 : Engine) (ev1 ev2 : PovScore) (b : Board),
    analyse (ls_engine st) (ls_board st) MOVETIME_MS = (Ok i1, e1) /\
    get_score i1 = Ok ev1 /\
    push_uci (ls_board st) u = Ok b /\
    analyse e1 b MOVETIME_MS = (Ok i2, e2) /\
    get_score i2 = Ok ev2 /\
    let mover := turn (ls_board st) in
    let best := pov mover (_score_cp_white ev1) in
    let after := - pov (turn b) (_score_cp_white ev2) in
    let loss := Z.max 0 (best - after) in
    0 <= loss /\
    (best <= after -> loss = 0) /\
    (turn b = negb mover -> after = pov mover (_score_cp_white ev2)) /\
    if mover
    then ls_acpl_w st' = ls_acpl_w st + loss /\ ls_n_w st' = ls_n_w st + 1 /\
         ls_acpl_b st' = ls_acpl_b st /\ ls_n_b st' = ls_n_b st
    else ls_acpl_b st' = ls_acpl_b st + loss /\ ls_n_b st' = ls_n_b st + 1 /\
         ls_acpl_w st' = ls_acpl_w st /\ ls_n_w st' = ls_n_w st.
Proof.
  apply (scored_ply_adds_clamped_loss
           (initial_state (L := Script.lib) [] Script.two_plies)
           Script.after_one_ply "e2e4").
  reflexivity.
Defined.

Lemma interrupted_job_reports_scored_plies_witness :
  exists r r_pre : analysis_row,
    fst (_analyze_job 5 {| job_game_id := 7; initial_fen := "startpos";
                           uci_moves := ["e2e4"; "e7e5"] ++ "g1f3" :: ["b8c6"];
                           tags := ∅ |} Script.two_plies)
      = Ok r /\
    fst (_analyze_job 5 {| job_game_id := 7; initial_fen := "startpos";
                           uci_moves := ["e2e4"; "e7e5"]; tags := ∅ |}
           Script.two_plies)
      = Ok r_pre /\
    plies_analyzed r = Z.of_nat (length ["e2e4"; "e7e5"]) /\
    notes r <> None /\
    acpl_white r = acpl_white r_pre /\
    acpl_black r = acpl_black r_pre /\
    ls_n_w Script.after_two_plies + ls_n_b Script.after_two_plies
      = Z.of_nat (length ["e2e4"; "e7e5"]) /\
    acpl_white r = (IZR (ls_acpl_w Script.after_two_plies)
                    / IZR (Z.max 1 (ls_n_w Script.after_two_plies)))%R /\
    acpl_black r = (IZR (ls_acpl_b Script.after_two_plies)
                    / IZR (Z.max 1 (ls_n_b Script.after_two_plies)))%R.
Proof.
  apply (interrupted_job_reports_scored_plies (L := Script.lib) 5 7 "startpos" ∅
           ["e2e4"; "e7e5"] ["b8c6"] "g1f3" Script.two_plies []
           Script.after_two_plies).
  - reflexivity.
  - reflexivity.
  - cbn. discriminate.
Defined.

Lemma empty_side_zero_loss_full_accuracy_witness :
  exists r : analysis_row,
    fst (_analyze_job 5 (Script.job "startpos" ["e2e4"])
           [Script.answer (Cp 30) true; Script.answer (Cp (-20)) false])
      = Ok r /\
    acpl_of false r = 0%R /\ accuracy_of false r = 100%R.
Proof.
  apply (empty_side_zero_loss_full_accuracy (L := Script.lib) false 5
           (Script.job "startpos" ["e2e4"])
           [Script.answer (Cp 30) true; Script.answer (Cp (-20)) false]).
  reflexivity.
Defined.

Lemma bad_fen_row_witness :
  exists r : analysis_row,
    fst (_analyze_job 5 (Script.job "" ["e2e4"]) Script.two_plies) = Ok r /\
    game_id r = job_game_id (Script.job "" ["e2e4"]) /\
    plies_analyzed r = 0 /\
    acpl_white r = 0%R /\ acpl_black r = 0%R /\
    accuracy_white r = 100%R /\ accuracy_black r = 100%R /\
    exists rest : string, notes r = Some ("bad FEN" +:+ rest).
Proof.
  apply (bad_fen_row (L := Script.lib) 5 (Script.job "" ["e2e4"])
           Script.two_plies (ValueError "empty fen")).
  reflexivity.
Defined.

(** The mating move of C4 inside the loop: White mates in one, the
    engine agrees before the move and reports the mate after it, and
    the move is charged 200000 centipawns. *)
Example mating_move_is_charged :
  let e := [Script.answer (Mate 1) true; Script.answer (Mate 0) false] in
  let st := after_loop ["h5f7"] (initial_state (L := Script.lib) [] e) in
  ls_acpl_w st = 200000 /\ ls_n_w st = 1 /\ ls_notes st = [].
Proof. repeat split; reflexivity. Qed.

(** The notes of interrupted jobs on the scripted library: the engine is
    gone at the third ply; the engine fails at the post-move call of the
    second ply; the third move is illegal. *)
Example interrupted_notes :
  let run us e := after_loop us (initial_state (L := Script.lib) [] e) in
  let st1 := run ["e2e4"; "e7e5"; "g1f3"; "b8c6"] Script.two_plies in
  let st2 := run ["e2e4"; "e7e5"; "g1f3"]
               [Script.answer (Cp 30) true; Script.answer (Cp (-20)) false;
                Script.answer (Cp 20) false; Raise (EngineError "bad reply")] in
  let st3 := run ["e2e4"; "e7e5"; "g1"; "b8c6"]
               (Script.two_plies ++ [Script.answer (Cp 10) true]) in
  (ls_notes st1 = ["engine terminated"] /\ ls_n_w st1 + ls_n_b st1 = 2) /\
  (ls_notes st2 = ["engine error: bad reply"] /\ ls_n_w st2 + ls_n_b st2 = 1) /\
  (ls_notes st3 = ["illegal move g1 at ply 3"] /\ ls_n_w st3 + ls_n_b st3 = 2).
Proof. repeat split; reflexivity. Qed.

(** ** Queries *)

Section OrderBy.
Context {A : Type} (key : A -> Z).

Lemma insert_by_In (x a : A) (l : list A) :
  In x (insert_by key a l) <-> x = a \/ In x l.
Proof.
  induction l as [|y l IH]; simpl.
  - intuition.
  - destruct (key a <=? key y); simpl; [intuition|].
    rewrite IH. intuition.
Qed.

Lemma order_by_In (x : A) (l : list A) : In x (order_by key l) <-> In x l.
Proof.
  induction l as [|a l IH]; simpl; [reflexivity|].
  rewrite insert_by_In, IH. intuition.
Qed.

Lemma insert_by_sorted (a : A) (l : list A) :
  StronglySorted (fun x y => key x <= key y) l ->
  StronglySorted (fun x y => key x <= key y) (insert_by key a l).
Proof.
  induction 1 as [|y l Hs IH Hall]; simpl.
  - constructor; constructor.
  - destruct (Z.leb_spec (key a) (key y)) as [Hle|Hlt].
    + constructor; [constructor; assumption|].
      constructor; [exact Hle|].
      rewrite List.Forall_forall in *. intros z Hz. specialize (Hall z Hz). lia.
    + constructor; [exact IH|].
      rewrite List.Forall_forall in *. intros z Hz.
      apply insert_by_In in Hz as [->|Hz]; [lia|auto].
Qed.

Lemma order_by_sorted (l : list A) :
  StronglySorted (fun x y => key x <= key y) (order_by key l).
Proof.
  induction l as [|a l IH]; simpl; [constructor|].
  apply insert_by_sorted, IH.
Qed.

Lemma map_key_sorted (l : list A) :
  StronglySorted (fun x y => key x <= key y) l ->
  StronglySorted Z.le (map key l).
Proof.
  induction 1 as [|y l Hs IH Hall]; simpl; constructor; [exact IH|].
  rewrite List.Forall_forall in *. intros z Hz.
  apply in_map_iff in Hz as (x & <- & Hx). auto.
Qed.

End OrderBy.

Lemma select_games_dated_sorted (w b : Z) (res date : string) (ply : Z) (d : db) :
  StronglySorted Z.le (select_games_dated w b res date ply d).
Proof. apply map_key_sorted, order_by_sorted. Qed.

Lemma select_games_undated_sorted (w b : Z) (res : string) (ply : Z) (d : db) :
  StronglySorted Z.le (select_games_undated w b res ply d).
Proof. apply map_key_sorted, order_by_sorted. Qed.

Lemma candidate_query_sorted (w b : Z) (res : string) (date_iso : option string)
    (ply : Z) (d : db) :
  StronglySorted Z.le (candidate_query w b res date_iso ply d).
Proof.
  unfold candidate_query. destruct date_iso as [[|c s]|];
    auto using select_games_dated_sorted, select_games_undated_sorted.
Qed.

Lemma key_match_iff (w b : Z) (res : string) (ply : Z) (g : game_row) :
  key_match w b res ply g = true <->
  g_white_id g = w /\ g_black_id g = b /\ g_result g = res /\
  g_ply_count g = Some ply.
Proof.
  unfold key_match, sql_eq. rewrite !andb_true_iff, !Z.eqb_eq, String.eqb_eq.
  destruct (g_ply_count g) as [p|].
  - rewrite Z.eqb_eq. intuition congruence.
  - intuition congruence.
Qed.

Lemma date_missing_iff (g : game_row) :
  date_missing g = true <-> g_date g = None \/ g_date g = Some "".
Proof.
  unfold date_missing. destruct (g_date g) as [s|].
  - rewrite String.eqb_eq. intuition congruence.
  - intuition.
Qed.

Lemma select_games_undated_In (w b : Z) (res : string) (ply : Z) (d : db) (id : Z) :
  In id (select_games_undated w b res ply d) <->
  exists g : game_row,
    In g (games d) /\ g_id g = id /\
    g_white_id g = w /\ g_black_id g = b /\ g_result g = res /\
    g_ply_count g = Some ply /\ (g_date g = None \/ g_date g = Some "").
Proof.
  unfold select_games_undated. rewrite in_map_iff. split.
  - intros (g & Hid & Hg). apply order_by_In, filter_In in Hg as (Hg & Hk).
    apply andb_true_iff in Hk as (Hk & Hd).
    apply key_match_iff in Hk. apply date_missing_iff in Hd.
    exists g. tauto.
  - intros (g & Hg & Hid & Hw & Hb & Hr & Hp & Hd). exists g.
    split; [exact Hid|]. apply order_by_In, filter_In. split; [exact Hg|].
    apply andb_true_iff. split; [apply key_match_iff|apply date_missing_iff];
      tauto.
Qed.

Lemma select_games_dated_In (w b : Z) (res date : string) (ply : Z) (d : db) (id : Z) :
  In id (select_games_dated w b res date ply d) <->
  exists g : game_row,
    In g (games d) /\ g_id g = id /\
    g_white_id g = w /\ g_black_id g = b /\ g_result g = res /\
    g_ply_count g = Some ply /\ g_date g = Some date.
Proof.
  unfold select_games_dated. rewrite in_map_iff. split.
  - intros (g & Hid & Hg). apply order_by_In, filter_In in Hg as (Hg & Hk).
    apply andb_true_iff in Hk as (Hk & Hd).
    apply key_match_iff in Hk. exists g.
    unfold sql_eq in Hd. destruct (g_date g) as [s|]; [|discriminate].
    apply String.eqb_eq in Hd. subst s. tauto.
  - intros (g & Hg & Hid & Hw & Hb & Hr & Hp & Hd). exists g.
    split; [exact Hid|]. apply order_by_In, filter_In. split; [exact Hg|].
    apply andb_true_iff. split; [apply key_match_iff; tauto|].
    rewrite Hd. apply String.eqb_refl.
Qed.

(** A name that no row of [players] carries selects nothing. *)
Lemma select_player_absent (name : string) (d : db) :
  (forall p : player_row, In p (players d) -> p_name p <> name) ->
  select_player name d = [].
Proof.
  intros H. unfold select_player.
  induction (players d) as [|p l IH]; simpl; [reflexivity|].
  destruct (String.eqb_spec (p_name p) name) as [E|E].
  - exfalso. apply (H p); [left; reflexivity|exact E].
  - apply IH. intros q Hq. apply H. right. exact Hq.
Qed.

(** ** The resolver *)

Lemma parse_pgn_date_never_raises (s : option string) :
  exists v : option string, parse_pgn_date_to_iso s = Ok v.
Proof.
  unfold parse_pgn_date_to_iso. destruct s as [s|]; [|eauto].
  destruct (String.eqb s "" || startswith s "?"); [eauto|].
  match goal with
  | |- context [match ?X with Ok _ => _ | Raise _ => _ end] => destruct X
  end; eauto.
Qed.

Lemma resolve_game_id_unfold (tags : gmap string string) (uci_moves : list string)
    (d : db) (date_iso : option string) :
  parse_pgn_date_to_iso (tags !! "Date") = Ok date_iso ->
  resolve_game_id tags uci_moves d =
  match head (select_player (white_name tags) d),
        head (select_player (black_name tags) d) with
  | Some w, Some b =>
      pick_candidate uci_moves
        (candidate_query w b (or_str (tags !! "Result") "*") date_iso
           (Z.of_nat (length uci_moves)) d) d
  | _, _ => (Ok None, d)
  end.
Proof.
  intros H.
  unfold resolve_game_id, resolve_player_id, lift, select, mbind, M_bind,
    mret, M_ret.
  rewrite H.
  destruct (head (select_player (white_name tags) d));
    destruct (head (select_player (black_name tags) d)); reflexivity.
Qed.

(** C9: when the white or the black name of the tags is the name of no
    player, [resolve_game_id] returns [None], raises nothing and leaves
    the store, and with it the table of players, as it was. *)
Theorem unregistered_player_not_found
    (tags : gmap string string) (uci_moves : list string) (d : db) :
  ~ registered (white_name tags) d \/ ~ registered (black_name tags) d ->
  resolve_game_id tags uci_moves d = (Ok None, d).
Proof.
  intros H.
  destruct (parse_pgn_date_never_raises (tags !! "Date")) as (v & Hv).
  rewrite (resolve_game_id_unfold _ _ _ _ Hv).
  destruct H as [H|H].
  - rewrite select_player_absent; [reflexivity|].
    intros p Hp Hn. apply H. exists p. auto.
  - rewrite (select_player_absent (black_name tags)).
    + destruct (head (select_player (white_name tags) d)); reflexivity.
    + intros p Hp Hn. apply H. exists p. auto.
Qed.

Lemma unregistered_player_not_found_witness :
  resolve_game_id (Sample.tags "Alice" "Carol" "2021.01.01") ["e2e4"; "e7e5"]
    Sample.store
  = (Ok None, Sample.store).
Proof.
  apply (unregistered_player_not_found
           (Sample.tags "Alice" "Carol" "2021.01.01") ["e2e4"; "e7e5"]
           Sample.store).
  right. intros (p & Hp & Hn). vm_compute in Hn.
  simpl in Hp. destruct Hp as [<-|[<-|[]]]; discriminate.
Defined.

Lemma firstn_min_length {A : Type} (n : nat) (l : list A) :
  firstn n l = firstn (Nat.min n (length l)) l.
Proof.
  destruct (Nat.le_gt_cases n (length l)) as [H|H].
  - rewrite Nat.min_l by exact H. reflexivity.
  - rewrite Nat.min_r by lia. rewrite !firstn_all2 by lia. reflexivity.
Qed.

(** The test [ucis == probe] of the loop is the agreement of prefixes. *)
Lemma probe_test_iff (uci_moves : list string) (d : db) (g : Z) :
  list_eqb (select_moves g (length (firstn 10 uci_moves)) d) (firstn 10 uci_moves)
    = true
  <-> prefix_matches uci_moves d g.
Proof.
  unfold list_eqb, select_moves, prefix_matches.
  rewrite bool_decide_eq_true.
  rewrite List.length_firstn, <- (firstn_min_length 10 uci_moves). reflexivity.
Qed.

(** The loop returns the first candidate that passes the test, else the
    fallback; it reads the store and leaves it. *)
Lemma disambiguate_first_match (uci_moves : list string) (cands : list Z)
    (fallback : Z) (d : db) :
  exists r : Z,
    disambiguate (firstn 10 uci_moves) cands fallback d = (Ok (Some r), d) /\
    ((exists pre post : list Z,
         cands = pre ++ r :: post /\ prefix_matches uci_moves d r /\
         forall g : Z, In g pre -> ~ prefix_matches uci_moves d g)
     \/ (r = fallback /\
         forall g : Z, In g cands -> ~ prefix_matches uci_moves d g)).
Proof.
  induction cands as [|c cands IH].
  - exists fallback. split; [reflexivity|]. right. split; [reflexivity|].
    intros g [].
  - simpl. unfold mbind, M_bind, select.
    destruct (list_eqb (select_moves c (length (firstn 10 uci_moves)) d)
                (firstn 10 uci_moves)) eqn:T.
    + exists c. split; [reflexivity|]. left. exists [], cands.
      split; [reflexivity|]. split; [apply probe_test_iff, T|]. intros g [].
    + assert (Hc : ~ prefix_matches uci_moves d c).
      { intros Hm. apply probe_test_iff in Hm. congruence. }
      destruct IH as (r & Hr & [(pre & post & -> & Hm & Hpre)|(-> & Hall)]).
      * exists r. split; [exact Hr|]. left. exists (c :: pre), post.
        split; [reflexivity|]. split; [exact Hm|].
        intros g [<-|Hg]; auto.
      * exists fallback. split; [exact Hr|]. right. split; [reflexivity|].
        intros g [<-|Hg]; auto.
Qed.

Lemma sorted_app_le (pre post : list Z) (r : Z) :
  StronglySorted Z.le (pre ++ r :: post) ->
  forall g : Z, In g post -> r <= g.
Proof.
  induction pre as [|p pre IH]; simpl; intros H g Hg.
  - apply StronglySorted_inv in H as [_ H].
    rewrite List.Forall_forall in H. auto.
  - apply StronglySorted_inv in H as [H _]. auto.
Qed.

Lemma sorted_head_le (c : Z) (l : list Z) :
  StronglySorted Z.le (c :: l) -> forall g : Z, In g (c :: l) -> c <= g.
Proof.
  intros H g [<-|Hg]; [lia|].
  apply StronglySorted_inv in H as [_ H].
  rewrite List.Forall_forall in H. auto.
Qed.

(** C1: with both players registered and two or more candidates for the
    key, [resolve_game_id] returns a candidate [r].  When some candidate
    agrees with the probe on the first min(10, length) plies, [r] is the
    least identity among those that do; when none does, [r] is the least
    candidate.  Hence for candidates [g1] and [g2] whose stored prefixes
    differ, a probe that agrees with [g1] is never resolved to [g2]. *)
Theorem resolve_among_candidates
    (tags : gmap string string) (uci_moves : list string) (d : db)
    (date_iso : option string) (w b : Z) (cands : list Z) :
  parse_pgn_date_to_iso (tags !! "Date") = Ok date_iso ->
  head (select_player (white_name tags) d) = Some w ->
  head (select_player (black_name tags) d) = Some b ->
  cands = candidate_query w b (or_str (tags !! "Result") "*") date_iso
            (Z.of_nat (length uci_moves)) d ->
  (2 <= length cands)%nat ->
  exists r : Z,
    resolve_game_id tags uci_moves d = (Ok (Some r), d) /\
    In r cands /\
    ((exists g : Z, In g cands /\ prefix_matches uci_moves d g) ->
     prefix_matches uci_moves d r /\
     forall g : Z, In g cands -> prefix_matches uci_moves d g -> r <= g) /\
    ((forall g : Z, In g cands -> ~ prefix_matches uci_moves d g) ->
     forall g : Z, In g cands -> r <= g) /\
    (forall g1 g2 : Z,
        In g1 cands -> In g2 cands -> g1 <> g2 ->
        firstn (Nat.min 10 (length uci_moves)) (stored_moves g1 d)
          <> firstn (Nat.min 10 (length uci_moves)) (stored_moves g2 d) ->
        prefix_matches uci_moves d g1 ->
        r <> g2).
Proof.
  intros Hd Hw Hb Hc Hlen.
  rewrite (resolve_game_id_unfold _ _ _ _ Hd), Hw, Hb, <- Hc.
  pose proof (candidate_query_sorted w b (or_str (tags !! "Result") "*")
                date_iso (Z.of_nat (length uci_moves)) d) as Hs.
  rewrite <- Hc in Hs. clear Hc Hd Hw Hb.
  destruct cands as [|c0 [|c1 rest]]; simpl in Hlen; try lia.
  unfold pick_candidate.
  destruct (disambiguate_first_match uci_moves (c0 :: c1 :: rest) c0 d)
    as (r & Hr & Hcase).
  exists r. split; [exact Hr|].
  assert (Hfirst :
    (prefix_matches uci_moves d r /\
     forall g, In g (c0 :: c1 :: rest) -> prefix_matches uci_moves d g -> r <= g)
    \/ (r = c0 /\
        forall g, In g (c0 :: c1 :: rest) -> ~ prefix_matches uci_moves d g)).
  { destruct Hcase as [(pre & post & E & Hm & Hpre)|(-> & Hall)].
    - left. split; [exact Hm|]. intros g Hg Hgm. rewrite E in Hg, Hs.
      apply in_app_or in Hg as [Hg|[<-|Hg]].
      + exfalso. exact (Hpre g Hg Hgm).
      + lia.
      + exact (sorted_app_le pre post r Hs g Hg).
    - right. auto. }
  assert (Hin : In r (c0 :: c1 :: rest)).
  { destruct Hcase as [(pre & post & E & _)|(-> & _)].
    - rewrite E. apply in_or_app. right. left. reflexivity.
    - left. reflexivity. }
  split; [exact Hin|]. split; [|split].
  - intros (g & Hg & Hgm).
    destruct Hfirst as [Hf|(_ & Hall)]; [exact Hf|].
    exfalso. exact (Hall g Hg Hgm).
  - intros Hnone g Hg.
    destruct Hfirst as [(Hm & _)|(-> & _)].
    + exfalso. exact (Hnone r Hin Hm).
    + exact (sorted_head_le c0 (c1 :: rest) Hs g Hg).
  - intros g1 g2 Hg1 Hg2 Hne Hdiff Hm1 ->.
    destruct Hfirst as [(Hm & _)|(_ & Hall)].
    + apply Hdiff. unfold prefix_matches in Hm1, Hm. cbv zeta in Hm1, Hm.
      congruence.
    + exact (Hall g1 Hg1 Hm1).
Qed.

Lemma resolve_among_candidates_witness :
  exists r : Z,
    resolve_game_id (Sample.tags "Alice" "Bob" "2021.01.01") ["e2e4"; "e7e5"]
      Sample.store = (Ok (Some r), Sample.store) /\
    In r [10; 11] /\
    ((exists g : Z, In g [10; 11] /\
                    prefix_matches ["e2e4"; "e7e5"] Sample.store g) ->
     prefix_matches ["e2e4"; "e7e5"] Sample.store r /\
     forall g : Z, In g [10; 11] ->
                   prefix_matches ["e2e4"; "e7e5"] Sample.store g -> r <= g) /\
    ((forall g : Z, In g [10; 11] ->
                    ~ prefix_matches ["e2e4"; "e7e5"] Sample.store g) ->
     forall g : Z, In g [10; 11] -> r <= g) /\
    (forall g1 g2 : Z,
        In g1 [10; 11] -> In g2 [10; 11] -> g1 <> g2 ->
        firstn (Nat.min 10 (length ["e2e4"; "e7e5"])) (stored_moves g1 Sample.store)
          <> firstn (Nat.min 10 (length ["e2e4"; "e7e5"]))
               (stored_moves g2 Sample.store) ->
        prefix_matches ["e2e4"; "e7e5"] Sample.store g1 ->
        r <> g2).
Proof.
  apply (resolve_among_candidates
           (Sample.tags "Alice" "Bob" "2021.01.01") ["e2e4"; "e7e5"]
           Sample.store (Some "2021-01-01") 1 2 [10; 11]).
  - vm_compute. reflexivity.
  - vm_compute. reflexivity.
  - vm_compute. reflexivity.
  - vm_compute. reflexivity.
  - simpl. lia.
Defined.

Example resolve_samples :
  fst (resolve_game_id (Sample.tags "Alice" "Bob" "2021.01.01")
         ["e2e4"; "e7e5"] Sample.store) = Ok (Some 11) /\
  fst (resolve_game_id (Sample.tags "Alice" "Bob" "2021.01.01")
         ["d2d4"; "d7d5"] Sample.store) = Ok (Some 10) /\
  fst (resolve_game_id (Sample.tags "Alice" "Bob" "2021.01.01")
         ["c2c4"; "e7e5"] Sample.store) = Ok (Some 10) /\
  fst (resolve_game_id (Sample.tags "Alice" "Bob" "????.??.??")
         ["c2c4"; "e7e5"] Sample.store) = Ok (Some 12) /\
  fst (resolve_game_id (Sample.tags "Alice" "Bob" "2021.01.01")
         ["c2c4"] Sample.store) = Ok None.
Proof. repeat split; vm_compute; reflexivity. Qed.

(** ** Date normalisation *)

Lemma parse_pgn_date_fields (s p0 p1 p2 : string) (rest : list string)
    (y m dd : Z) :
  s <> "" -> startswith s "?" = false ->
  split "." s = p0 :: p1 :: p2 :: rest ->
  int p0 = Ok y ->
  (if String.eqb p1 "??" then m = 1 else int p1 = Ok m) ->
  (if String.eqb p2 "??" then dd = 1 else int p2 = Ok dd) ->
  parse_pgn_date_to_iso (Some s)
  = Ok (Some (format_0d 4 y +:+ "-" +:+ format_0d 2 m +:+ "-"
              +:+ format_0d 2 dd)).
Proof.
  intros Hne Hq Hs Hy Hm Hd. unfold parse_pgn_date_to_iso.
  destruct (String.eqb_spec s "") as [E|_]; [contradiction|].
  rewrite Hq, Hs. cbn. rewrite Hy. cbn.
  destruct (String.eqb p1 "??"); destruct (String.eqb p2 "??"); subst;
    try rewrite Hm; try rewrite Hd; reflexivity.
Qed.

Lemma parse_pgn_date_unknown (s : option string) :
  s = None \/ s = Some "" \/ (exists t : string, s = Some (String "?" t)) ->
  parse_pgn_date_to_iso s = Ok None.
Proof.
  intros [->|[->|(t & ->)]]; try reflexivity.
  unfold parse_pgn_date_to_iso, startswith. cbn. destruct t; reflexivity.
Qed.

Lemma parse_pgn_date_unparseable (s : string) :
  (length (split "." s) < 3)%nat \/
  (exists (i : nat) (p : string) (e : exn),
      (i < 3)%nat /\ nth_error (split "." s) i = Some p /\
      (i = 0%nat \/ p <> "??") /\ int p = Raise e) ->
  parse_pgn_date_to_iso (Some s) = Ok None.
Proof.
  intros H. unfold parse_pgn_date_to_iso.
  destruct (String.eqb s "" || startswith s "?"); [reflexivity|].
  destruct (split "." s) as [|p0 [|p1 [|p2 rest]]]; cbn.
  - reflexivity.
  - destruct (int p0); reflexivity.
  - destruct (int p0); cbn; [|reflexivity].
    destruct (String.eqb p1 "??"); cbn; [reflexivity|].
    destruct (int p1); reflexivity.
  - destruct H as [H|(i & p & e & Hi & Hp & Hw & Hr)]; [simpl in H; lia|].
    destruct (int p0) as [y|e0] eqn:E0; cbn; [|reflexivity].
    destruct (String.eqb_spec p1 "??") as [W1|W1];
      [|destruct (int p1) as [m|e1] eqn:E1]; cbn; try reflexivity;
      (destruct (String.eqb_spec p2 "??") as [W2|W2];
       [|destruct (int p2) as [dd|e2] eqn:E2]; cbn; try reflexivity);
      exfalso;
      (destruct i as [|[|[|i]]]; [| | |lia]; simpl in Hp;
       injection Hp as <-; destruct Hw as [Hw|Hw]; congruence).
Qed.

Lemma resolve_null_date (tags : gmap string string) (uci_moves : list string)
    (d : db) (w b : Z) :
  parse_pgn_date_to_iso (tags !! "Date") = Ok None ->
  head (select_player (white_name tags) d) = Some w ->
  head (select_player (black_name tags) d) = Some b ->
  resolve_game_id tags uci_moves d
  = pick_candidate uci_moves
      (select_games_undated w b (or_str (tags !! "Result") "*")
         (Z.of_nat (length uci_moves)) d) d.
Proof.
  intros Hd Hw Hb. rewrite (resolve_game_id_unfold _ _ _ _ Hd), Hw, Hb.
  reflexivity.
Qed.

(** C8: [parse_pgn_date_to_iso] never raises; on a date of three or more
    fields whose year is an integer and whose month and day are each an
    integer or "??", a "??" counts as 1; a date that is absent, empty or
    begins with "?", that has fewer than three fields, or one of whose
    fields is not an integer (nor, for month and day, "??") gives [None].
    When the date is [None] and both players are registered, the
    candidates of [resolve_game_id] are the games with the key's players,
    result and ply count whose stored date is NULL or empty. *)
Theorem date_normalization_and_null_date_query :
  (forall s : option string,
      exists v : option string, parse_pgn_date_to_iso s = Ok v) /\
  (forall (s p0 p1 p2 : string) (rest : list string) (y m dd : Z),
      s <> "" -> startswith s "?" = false ->
      split "." s = p0 :: p1 :: p2 :: rest ->
      int p0 = Ok y ->
      (if String.eqb p1 "??" then m = 1 else int p1 = Ok m) ->
      (if String.eqb p2 "??" then dd = 1 else int p2 = Ok dd) ->
      parse_pgn_date_to_iso (Some s)
      = Ok (Some (format_0d 4 y +:+ "-" +:+ format_0d 2 m +:+ "-"
                  +:+ format_0d 2 dd))) /\
  (forall s : option string,
      s = None \/ s = Some "" \/ (exists t : string, s = Some (String "?" t)) ->
      parse_pgn_date_to_iso s = Ok None) /\
  (forall s : string,
      (length (split "." s) < 3)%nat \/
      (exists (i : nat) (p : string) (e : exn),
          (i < 3)%nat /\ nth_error (split "." s) i = Some p /\
          (i = 0%nat \/ p <> "??") /\ int p = Raise e) ->
      parse_pgn_date_to_iso (Some s) = Ok None) /\
  (forall (tags : gmap string string) (uci_moves : list string) (d : db)
          (w b : Z),
      parse_pgn_date_to_iso (tags !! "Date") = Ok None ->
      head (select_player (white_name tags) d) = Some w ->
      head (select_player (black_name tags) d) = Some b ->
      resolve_game_id tags uci_moves d
      = pick_candidate uci_moves
          (select_games_undated w b (or_str (tags !! "Result") "*")
             (Z.of_nat (length uci_moves)) d) d) /\
  (forall (w b : Z) (res : string) (ply : Z) (d : db) (id : Z),
      In id (select_games_undated w b res ply d) <->
      exists g : game_row,
        In g (games d) /\ g_id g = id /\
        g_white_id g = w /\ g_black_id g = b /\ g_result g = res /\
        g_ply_count g = Some ply /\ (g_date g = None \/ g_date g = Some "")).
Proof.
  split; [exact parse_pgn_date_never_raises|].
  split; [exact parse_pgn_date_fields|].
  split; [exact parse_pgn_date_unknown|].
  split; [exact parse_pgn_date_unparseable|].
  split; [exact resolve_null_date|exact select_games_undated_In].
Qed.

(** A game whose stored date is NULL is resolved from a PGN game whose
    date is unknown, and from no dated one. *)
Example null_date_samples :
  fst (resolve_game_id (Sample.tags "Alice" "Bob" "????.??.??")
         ["a2a3"; "a7a6"] Sample.store) = Ok (Some 12) /\
  fst (resolve_game_id (Sample.tags "Alice" "Bob" "not a date")
         ["a2a3"; "a7a6"] Sample.store) = Ok (Some 12) /\
  select_games_dated 1 2 "1-0" "" 2 Sample.store = [].
Proof. repeat split; vm_compute; reflexivity. Qed.

(** ** Persistence *)

Lemma do_update_same_key (r x : analysis_row) :
  game_id x = game_id r -> do_update r x = r.
Proof. destruct r. unfold do_update. cbn. intros ->. reflexivity. Qed.

Lemma has_row_iff (gid : Z) (t : list analysis_row) :
  has_row gid t = true <-> In gid (map game_id t).
Proof.
  unfold has_row. rewrite existsb_exists, List.in_map_iff.
  split; intros (x & H1 & H2).
  - apply Z.eqb_eq in H2. eauto.
  - exists x. split; [exact H2|]. apply Z.eqb_eq. exact H1.
Qed.

Lemma upsert_ok (r : analysis_row) (d : db) :
  has_row (game_id r) (analysis d) = true \/ has_game (game_id r) d = true ->
  upsert r d = (Ok (), set_analysis d (upserted r (analysis d))).
Proof.
  unfold upsert, upserted. intros [H|H].
  - rewrite H. reflexivity.
  - rewrite H. destruct (has_row (game_id r) (analysis d)); reflexivity.
Qed.

Lemma upserted_keys (r : analysis_row) (t : list analysis_row) :
  NoDup (map game_id t) -> NoDup (map game_id (upserted r t)).
Proof.
  intros H. unfold upserted. destruct (has_row (game_id r) t) eqn:E.
  - rewrite map_map.
    erewrite map_ext; [exact H|].
    intros x. cbn. destruct (game_id x =? game_id r); reflexivity.
  - rewrite map_app. cbn.
    apply NoDup_app. split; [exact H|]. split.
    + intros x Hx Hr. apply list_elem_of_In in Hx, Hr.
      destruct Hr as [<-|[]].
      apply has_row_iff in Hx. congruence.
    + apply NoDup_singleton.
Qed.

Lemma upserted_row (r : analysis_row) (t : list analysis_row) :
  has_row (game_id r) (upserted r t) = true /\
  forall x : analysis_row,
    In x (upserted r t) -> game_id x = game_id r -> x = r.
Proof.
  unfold upserted. destruct (has_row (game_id r) t) eqn:E.
  - split.
    + apply has_row_iff. rewrite map_map.
      erewrite map_ext; [apply has_row_iff, E|].
      intros x. cbn. destruct (game_id x =? game_id r); reflexivity.
    + intros x Hx Hk. apply List.in_map_iff in Hx as (y & <- & Hy).
      destruct (Z.eqb_spec (game_id y) (game_id r)) as [Ey|Ey].
      * apply do_update_same_key, Ey.
      * contradiction.
  - split.
    + apply has_row_iff. rewrite map_app. apply in_or_app. right. left.
      reflexivity.
    + intros x Hx Hk. apply in_app_or in Hx as [Hx|[<-|[]]]; [|reflexivity].
      exfalso. assert (has_row (game_id r) t = true); [|congruence].
      apply has_row_iff. rewrite <- Hk. apply in_map. exact Hx.
Qed.

Lemma upserted_others (r : analysis_row) (t : list analysis_row) (gid : Z) :
  gid <> game_id r ->
  List.filter (fun x => game_id x =? gid) (upserted r t)
  = List.filter (fun x => game_id x =? gid) t.
Proof.
  intros Hne. unfold upserted. destruct (has_row (game_id r) t).
  - induction t as [|x t IH]; cbn; [reflexivity|].
    destruct (Z.eqb_spec (game_id x) (game_id r)) as [E|E]; cbn.
    + rewrite E. destruct (Z.eqb_spec (game_id r) gid); [congruence|].
      exact IH.
    + destruct (game_id x =? gid); [f_equal|]; exact IH.
  - rewrite List.filter_app. cbn.
    destruct (Z.eqb_spec (game_id r) gid); [congruence|].
    apply app_nil_r.
Qed.

(** With a unique key, the rows of one key that all equal [r] are the one
    row [r]. *)
Lemma filter_single (r : analysis_row) (t : list analysis_row) :
  NoDup (map game_id t) ->
  has_row (game_id r) t = true ->
  (forall x : analysis_row, In x t -> game_id x = game_id r -> x = r) ->
  List.filter (fun x => game_id x =? game_id r) t = [r].
Proof.
  induction t as [|x t IH]; cbn; intros Hn Hh Hall; [discriminate|].
  apply NoDup_cons in Hn as [Hx Hn].
  destruct (Z.eqb_spec (game_id x) (game_id r)) as [E|E]; cbn in *.
  - rewrite (Hall x (or_introl eq_refl) E). f_equal.
    assert (Hnot : ~ In (game_id r) (map game_id t)).
    { rewrite <- E. intros Hin. apply Hx, list_elem_of_In, Hin. }
    clear -Hnot. induction t as [|y t IH]; cbn; [reflexivity|].
    destruct (Z.eqb_spec (game_id y) (game_id r)) as [Ey|Ey].
    + exfalso. apply Hnot. left. exact Ey.
    + apply IH. intros Hin. apply Hnot. right. exact Hin.
  - apply IH; auto.
Qed.

(** Writing [r] over a table in which the rows of its key are [r]
    changes nothing. *)
Lemma upserted_again (r : analysis_row) (t : list analysis_row) :
  has_row (game_id r) t = true ->
  (forall x : analysis_row, In x t -> game_id x = game_id r -> x = r) ->
  upserted r t = t.
Proof.
  intros Hh Hall. unfold upserted. rewrite Hh.
  induction t as [|x t IH] in Hall |- *; cbn; [reflexivity|]. f_equal.
  - destruct (Z.eqb_spec (game_id x) (game_id r)) as [E|E]; [|reflexivity].
    rewrite (do_update_same_key r x E). symmetry.
    apply Hall; [left; reflexivity|exact E].
  - apply IH. intros y Hy. apply Hall. right. exact Hy.
Qed.

Lemma batch_one (r : analysis_row) (d : db) :
  has_row (game_id r) (analysis d) = true \/ has_game (game_id r) d = true ->
  upsert_analysis_batch [r] d
  = (Ok (), set_analysis d (upserted r (analysis d))).
Proof.
  intros H. unfold upsert_analysis_batch, executemany, mbind, M_bind.
  rewrite (upsert_ok r d H). reflexivity.
Qed.

(** C7, amended: in a store where the key of [analysis] is unique and
    the game of the two rows is stored (or already has a row), upserting
    a row and then a row of the same game succeeds both times and leaves
    one row for that game, the second; the rows of other games stay;
    upserting the second row once more changes nothing, and so does the
    second upsert when the two rows are the same. *)
Theorem upsert_twice_keeps_second (d : db) (r1 r2 : analysis_row) :
  analysis_key_unique d ->
  game_id r1 = game_id r2 ->
  has_game (game_id r1) d = true \/ has_row (game_id r1) (analysis d) = true ->
  exists d1 d2 : db,
    upsert_analysis_batch [r1] d = (Ok (), d1) /\
    upsert_analysis_batch [r2] d1 = (Ok (), d2) /\
    analysis_of (game_id r2) d2 = [r2] /\
    analysis_key_unique d2 /\
    (forall gid : Z, gid <> game_id r2 -> analysis_of gid d2 = analysis_of gid d) /\
    upsert_analysis_batch [r2] d2 = (Ok (), d2) /\
    (r1 = r2 -> d2 = d1).
Proof.
  intros Hu Hk Hg.
  exists (set_analysis d (upserted r1 (analysis d))).
  exists (set_analysis d (upserted r2 (upserted r1 (analysis d)))).
  destruct (upserted_row r1 (analysis d)) as (Hh1 & _).
  destruct (upserted_row r2 (upserted r1 (analysis d))) as (Hh2 & Hall2).
  pose proof (upserted_keys r2 _ (upserted_keys r1 _ Hu)) as Hu2.
  split; [apply batch_one; tauto|].
  split; [rewrite batch_one; [reflexivity|left; cbn; rewrite <- Hk; exact Hh1]|].
  split; [apply filter_single; assumption|].
  split; [exact Hu2|].
  split.
  - intros gid Hne. unfold analysis_of. cbn.
    rewrite upserted_others by exact Hne.
    apply upserted_others. congruence.
  - split.
    + rewrite batch_one by (left; exact Hh2). cbn.
      rewrite (upserted_again r2 _ Hh2 Hall2). reflexivity.
    + intros <-. destruct (upserted_row r1 (analysis d)) as (_ & Hall1).
      rewrite (upserted_again r1 _ Hh1 Hall1). reflexivity.
Qed.

Lemma upsert_twice_keeps_second_witness :
  exists d1 d2 : db,
    upsert_analysis_batch [Sample.row 10 3 (Some "engine terminated")] Sample.store
      = (Ok (), d1) /\
    upsert_analysis_batch [Sample.row 10 2 None] d1 = (Ok (), d2) /\
    analysis_of (game_id (Sample.row 10 2 None)) d2 = [Sample.row 10 2 None] /\
    analysis_key_unique d2 /\
    (forall gid : Z, gid <> game_id (Sample.row 10 2 None) ->
                     analysis_of gid d2 = analysis_of gid Sample.store) /\
    upsert_analysis_batch [Sample.row 10 2 None] d2 = (Ok (), d2) /\
    (Sample.row 10 3 (Some "engine terminated") = Sample.row 10 2 None ->
     d2 = d1).
Proof.
  apply (upsert_twice_keeps_second Sample.store
           (Sample.row 10 3 (Some "engine terminated")) (Sample.row 10 2 None)).
  - unfold analysis_key_unique. simpl. apply NoDup_nil_2.
  - reflexivity.
  - left. reflexivity.
Defined.

(** C7 as stated fails in a store where the game of the row is not
    stored: the insert is refused, nothing is written, and no row is
    there after the two upserts. *)
Lemma upsert_orphan_leaves_no_row :
  let r := Sample.row 1 0 None in
  let d1 := snd (upsert_analysis_batch [r] Sample.empty_store) in
  let d2 := snd (upsert_analysis_batch [r] d1) in
  analysis_key_unique Sample.empty_store /\
  fst (upsert_analysis_batch [r] Sample.empty_store)
    = Raise (IntegrityError "FOREIGN KEY constraint failed") /\
  analysis_of (game_id r) d2 = [] /\
  ~ (analysis_of (game_id r) d2 = [r]).
Proof.
  cbn. split; [apply NoDup_nil_2|]. split; [reflexivity|].
  split; [reflexivity|]. discriminate.
Qed.

(** * Further properties *)

(** ** The resolver on every input *)

Lemma select_player_head (name : string) (d : db) (w : Z) :
  head (select_player name d) = Some w ->
  exists p : player_row, In p (players d) /\ p_name p = name /\ p_id p = w.
Proof.
  unfold select_player. intros H.
  destruct (List.filter (fun p => String.eqb (p_name p) name) (players d))
    as [|p l] eqn:E; [discriminate|].
  simpl in H. injection H as <-.
  assert (Hin : In p (p :: l)) by (left; reflexivity).
  rewrite <- E in Hin. apply filter_In in Hin as [Hin Hn].
  apply String.eqb_eq in Hn. eauto.
Qed.

Lemma candidate_query_In (w b : Z) (res : string) (date_iso : option string)
    (ply : Z) (d : db) (id : Z) :
  In id (candidate_query w b res date_iso ply d) <->
  exists g : game_row,
    In g (games d) /\ g_id g = id /\
    g_white_id g = w /\ g_black_id g = b /\ g_result g = res /\
    g_ply_count g = Some ply /\
    match date_iso with
    | Some (String c s) => g_date g = Some (String c s)
    | _ => g_date g = None \/ g_date g = Some ""
    end.
Proof.
  unfold candidate_query. destruct date_iso as [[|c s]|];
    first [apply select_games_dated_In | apply select_games_undated_In].
Qed.

(** The end of the resolver reads the store and returns a candidate when
    there is one. *)
Lemma pick_candidate_some (uci_moves : list string) (cands : list Z) (d : db) :
  exists o : option Z,
    pick_candidate uci_moves cands d = (Ok o, d) /\
    (cands = [] -> o = None) /\
    (cands <> [] -> exists r : Z, o = Some r /\ In r cands).
Proof.
  destruct cands as [|c0 [|c1 rest]].
  - exists None. split; [reflexivity|]. split; [reflexivity|congruence].
  - exists (Some c0). split; [reflexivity|]. split; [discriminate|].
    intros _. exists c0. split; [reflexivity|left; reflexivity].
  - unfold pick_candidate.
    destruct (disambiguate_first_match uci_moves (c0 :: c1 :: rest) c0 d)
      as (r & Hr & Hcase).
    exists (Some r). split; [exact Hr|]. split; [discriminate|].
    intros _. exists r. split; [reflexivity|].
    destruct Hcase as [(pre & post & -> & _)|(-> & _)].
    + apply in_or_app. right. left. reflexivity.
    + left. reflexivity.
Qed.

(** X1: on every input [resolve_game_id] returns without raising and
    leaves the store as it was; an identity that it returns is that of a
    stored game whose players are registered under the two names of the
    tags, and whose result, ply count and date are those of the key. *)
Theorem resolve_game_id_sound
    (tags : gmap string string) (uci_moves : list string) (d : db) :
  exists (o : option Z) (date_iso : option string),
    resolve_game_id tags uci_moves d = (Ok o, d) /\
    parse_pgn_date_to_iso (tags !! "Date") = Ok date_iso /\
    forall id : Z, o = Some id ->
      exists (g : game_row) (pw pb : player_row),
        In g (games d) /\ g_id g = id /\
        In pw (players d) /\ p_name pw = white_name tags /\
        g_white_id g = p_id pw /\
        In pb (players d) /\ p_name pb = black_name tags /\
        g_black_id g = p_id pb /\
        g_result g = or_str (tags !! "Result") "*" /\
        g_ply_count g = Some (Z.of_nat (length uci_moves)) /\
        match date_iso with
        | Some (String c s) => g_date g = Some (String c s)
        | _ => g_date g = None \/ g_date g = Some ""
        end.
Proof.
  destruct (parse_pgn_date_never_raises (tags !! "Date")) as (date_iso & Hd).
  rewrite (resolve_game_id_unfold _ _ _ _ Hd).
  destruct (head (select_player (white_name tags) d)) as [w|] eqn:Hw;
    [|exists None, date_iso; repeat split; auto; discriminate].
  destruct (head (select_player (black_name tags) d)) as [b|] eqn:Hb;
    [|exists None, date_iso; repeat split; auto; discriminate].
  destruct (pick_candidate_some uci_moves
              (candidate_query w b (or_str (tags !! "Result") "*") date_iso
                 (Z.of_nat (length uci_moves)) d) d)
    as (o & Ho & Hnil & Hsome).
  exists o, date_iso. split; [exact Ho|]. split; [exact Hd|].
  intros id ->.
  destruct (candidate_query w b (or_str (tags !! "Result") "*") date_iso
              (Z.of_nat (length uci_moves)) d) as [|c cs] eqn:Ec;
    [specialize (Hnil eq_refl); discriminate|].
  destruct Hsome as (r & Hr & Hin); [discriminate|]. injection Hr as <-.
  rewrite <- Ec in Hin.
  apply candidate_query_In in Hin as (g & Hg & Hid & Hgw & Hgb & Hres & Hply & Hdate).
  apply select_player_head in Hw as (pw & Hpw & Hnw & Hiw).
  apply select_player_head in Hb as (pb & Hpb & Hnb & Hib).
  exists g, pw, pb. repeat split; auto; congruence.
Qed.



(** ** The stored moves *)

Section OrderByPerm.
Context {A : Type} (key : A -> Z).

Lemma insert_by_perm (a : A) (l : list A) :
  Permutation (a :: l) (insert_by key a l).
Proof.
  induction l as [|y l IH]; simpl; [reflexivity|].
  destruct (key a <=? key y); [reflexivity|].
  rewrite perm_swap. apply perm_skip, IH.
Qed.

Lemma order_by_perm (l : list A) : Permutation l (order_by key l).
Proof.
  induction l as [|a l IH]; simpl; [reflexivity|].
  rewrite <- insert_by_perm. apply perm_skip, IH.
Qed.

Lemma strictly_sorted_key_inj (l : list A) (x y : A) :
  StronglySorted (fun a b => key a < key b) l ->
  In x l -> In y l -> key x = key y -> x = y.
Proof.
  induction 1 as [|a l Hs IH Hall]; intros Hx Hy Hk; [destruct Hx|].
  rewrite List.Forall_forall in Hall.
  destruct Hx as [<-|Hx], Hy as [<-|Hy]; auto.
  - specialize (Hall y Hy). lia.
  - specialize (Hall x Hx). lia.
Qed.

(** Sorting rows whose keys are distinct gives the one list of them in
    the order of the keys. *)
Lemma order_by_strictly_sorted (l l' : list A) :
  Permutation l l' ->
  StronglySorted (fun a b => key a < key b) l' ->
  order_by key l = l'.
Proof.
  intros Hp Hs.
  apply (StronglySorted_unique_strong (fun a b => key a <= key b)).
  - intros x1 x2 H1 H2 Hle Hge.
    apply (strictly_sorted_key_inj l'); [exact Hs| | |lia].
    + apply list_elem_of_In in H1. apply order_by_In in H1.
      eapply Permutation_in; eauto.
    + apply list_elem_of_In, H2.
  - apply order_by_sorted.
  - clear Hp. induction Hs as [|a l0 Hs IH Hall]; constructor; [exact IH|].
    eapply Forall_impl; [exact Hall|]. cbn. intros; lia.
  - rewrite <- order_by_perm. exact Hp.
Qed.

End OrderByPerm.

(** X3: the moves of a game come back in the order of their plies,
    whatever the order of the rows in the table: when the rows of game
    [gid] are, in some order, the rows [l] of increasing ply, the moves
    stored for [gid] are the moves of [l], and the query with a limit
    returns the first of them. *)
Theorem stored_moves_in_ply_order (gid : Z) (d : db) (l : list move_row) (limit : nat) :
  Permutation (List.filter (fun m => m_game_id m =? gid) (moves d)) l ->
  StronglySorted (fun a b => m_ply a < m_ply b) l ->
  stored_moves gid d = map m_uci l /\
  select_moves gid limit d = firstn limit (map m_uci l).
Proof.
  intros Hp Hs. unfold select_moves, stored_moves.
  rewrite (order_by_strictly_sorted m_ply _ l Hp Hs). split; reflexivity.
Qed.

Lemma stored_moves_in_ply_order_witness :
  stored_moves 11 Sample.store
  = map m_uci [ {| m_game_id := 11; m_ply := 1; m_uci := "e2e4" |};
                {| m_game_id := 11; m_ply := 2; m_uci := "e7e5" |} ] /\
  select_moves 11 1 Sample.store
  = firstn 1 (map m_uci [ {| m_game_id := 11; m_ply := 1; m_uci := "e2e4" |};
                          {| m_game_id := 11; m_ply := 2; m_uci := "e7e5" |} ]).
Proof.
  apply (stored_moves_in_ply_order 11 Sample.store).
  - simpl. apply perm_swap.
  - repeat constructor.
Defined.

(** ** The scan *)

Lemma collect_ucis_acc (mvs : list (result string)) (acc : list string) :
  collect_ucis mvs acc
  = (fst (collect_ucis mvs []), acc ++ snd (collect_ucis mvs [])).
Proof.
  revert acc. induction mvs as [|[u|e] mvs IH]; intros acc; simpl.
  - rewrite app_nil_r. reflexivity.
  - rewrite (IH (acc ++ [u])), (IH [u]). simpl. rewrite <- app_assoc.
    reflexivity.
  - rewrite app_nil_r. reflexivity.
Qed.

(** When every move has a UCI form the loop collects the moves. *)
Lemma collect_ucis_all (us : list string) :
  collect_ucis (map Ok us) [] = (true, us).
Proof.
  induction us as [|u us IH]; simpl; [reflexivity|].
  rewrite collect_ucis_acc, IH. reflexivity.
Qed.

Lemma scan_game_job_for (game : PgnGame) (jobs : list Job) (d : db) :
  scan_game game jobs d =
  match pg_board game with
  | Raise e => (Raise e, d)
  | Ok _ =>
      (Ok (jobs ++ match job_for d game with Some j => [j] | None => [] end), d)
  end.
Proof.
  unfold scan_game, job_for, lift, mbind, M_bind.
  destruct (pg_board game) as [fen|e]; [|reflexivity].
  destruct (collect_ucis (pg_mainline game) []) as [[|] [|u us]];
    simpl; try (rewrite app_nil_r; reflexivity).
  destruct (resolve_game_id_sound (pg_headers game) (u :: us) d)
    as (o & _ & -> & _). simpl.
  destruct o; simpl; [reflexivity|rewrite app_nil_r; reflexivity].
Qed.

Lemma scan_games_job_for (games : list PgnGame) (jobs : list Job) (d : db) :
  Forall (fun game => exists fen, pg_board game = Ok fen) games ->
  scan_games games jobs d = (Ok (jobs ++ omap (job_for d) games), d).
Proof.
  revert jobs. induction games as [|game games IH]; intros jobs Hall; simpl.
  - rewrite app_nil_r. reflexivity.
  - apply Forall_cons in Hall as [(fen & Hf) Hall].
    unfold mbind, M_bind. rewrite scan_game_job_for, Hf.
    rewrite (IH _ Hall). destruct (job_for d game); simpl.
    + rewrite <- app_assoc. reflexivity.
    + rewrite app_nil_r. reflexivity.
Qed.

Lemma job_for_some (d : db) (game : PgnGame) (j : Job) :
  job_for d game = Some j ->
  tags j = pg_headers game /\ pg_board game = Ok (initial_fen j) /\
  collect_ucis (pg_mainline game) [] = (true, uci_moves j) /\
  uci_moves j <> [] /\
  resolve_game_id (tags j) (uci_moves j) d = (Ok (Some (job_game_id j)), d) /\
  has_game (job_game_id j) d = true.
Proof.
  unfold job_for. destruct (pg_board game) as [fen|e]; [|discriminate].
  destruct (collect_ucis (pg_mainline game) []) as [[|] [|u us]];
    try discriminate.
  destruct (resolve_game_id_sound (pg_headers game) (u :: us) d)
    as (o & di & Hr & _ & Hs).
  rewrite Hr. simpl. destruct o as [id|]; [|discriminate].
  intros H. injection H as <-. simpl.
  split; [reflexivity|]. split; [reflexivity|]. split; [reflexivity|].
  split; [discriminate|]. split; [exact Hr|].
  destruct (Hs id eq_refl) as (g & pw & pb & Hg & Hid & _).
  unfold has_game. apply existsb_exists. exists g. split; [exact Hg|].
  apply Z.eqb_eq, Hid.
Qed.

(** X4: when the board of every game of the file can be set up, the
    scan returns, in the order of the file, one job for each game whose
    moves all have a UCI form, that has a move, and that the resolver
    finds, and no other job; it leaves the store as it was.  Each job
    carries the headers, the start position and the moves of its game,
    and its identity is that of a stored game. *)
Theorem scan_returns_resolved_games (games : list PgnGame) (d : db) :
  Forall (fun game => exists fen, pg_board game = Ok fen) games ->
  scan_pgn_and_resolve_jobs games d = (Ok (omap (job_for d) games), d) /\
  (length (omap (job_for d) games) <= length games)%nat /\
  Forall (fun j =>
            uci_moves j <> [] /\
            resolve_game_id (tags j) (uci_moves j) d
              = (Ok (Some (job_game_id j)), d) /\
            has_game (job_game_id j) d = true /\
            exists game, In game games /\ tags j = pg_headers game /\
                         pg_board game = Ok (initial_fen j) /\
                         collect_ucis (pg_mainline game) [] = (true, uci_moves j))
         (omap (job_for d) games).
Proof.
  intros Hall. split; [|split].
  - unfold scan_pgn_and_resolve_jobs. rewrite (scan_games_job_for _ _ _ Hall).
    reflexivity.
  - clear Hall. induction games as [|game games IH]; [reflexivity|].
    change (omap (job_for d) (game :: games))
      with (match job_for d game with
            | Some j => j :: omap (job_for d) games
            | None => omap (job_for d) games
            end).
    destruct (job_for d game); cbn [length]; lia.
  - clear Hall. apply List.Forall_forall. intros j Hj.
    apply list_elem_of_In, list_elem_of_omap in Hj as (game & Hg & Hj).
    apply job_for_some in Hj as (H1 & H2 & H3 & H4 & H5 & H6).
    repeat split; auto. exists game. split; [apply list_elem_of_In, Hg|auto].
Qed.

Lemma scan_returns_resolved_games_witness :
  let games := [sample_pgn_game;
                {| pg_headers := Sample.tags "Alice" "Carol" "2021.01.01";
                   pg_board := Ok "startpos"; pg_mainline := [Ok "e2e4"] |}] in
  let d := Sample.store in
  scan_pgn_and_resolve_jobs games d = (Ok (omap (job_for d) games), d) /\
  (length (omap (job_for d) games) <= length games)%nat /\
  Forall (fun j =>
            uci_moves j <> [] /\
            resolve_game_id (tags j) (uci_moves j) d
              = (Ok (Some (job_game_id j)), d) /\
            has_game (job_game_id j) d = true /\
            exists game, In game games /\ tags j = pg_headers game /\
                         pg_board game = Ok (initial_fen j) /\
                         collect_ucis (pg_mainline game) [] = (true, uci_moves j))
         (omap (job_for d) games).
Proof.
  apply (scan_returns_resolved_games
           [sample_pgn_game;
            {| pg_headers := Sample.tags "Alice" "Carol" "2021.01.01";
               pg_board := Ok "startpos"; pg_mainline := [Ok "e2e4"] |}]
           Sample.store).
  repeat constructor; simpl; eauto.
Defined.

Example scan_samples :
  map job_game_id
    (omap (job_for Sample.store)
       [sample_pgn_game;
        {| pg_headers := Sample.tags "Alice" "Carol" "2021.01.01";
           pg_board := Ok "startpos"; pg_mainline := [Ok "e2e4"] |};
        {| pg_headers := Sample.tags "Alice" "Bob" "2021.01.01";
           pg_board := Ok "startpos";
           pg_mainline := [Ok "d2d4"; Raise (ValueError "no uci")] |};
        {| pg_headers := Sample.tags "Alice" "Bob" "2021.01.01";
           pg_board := Ok "startpos"; pg_mainline := [] |};
        {| pg_headers := Sample.tags "Alice" "Bob" "";
           pg_board := Ok "startpos"; pg_mainline := [Ok "a2a3"; Ok "a7a6"] |}])
  = [11; 12].
Proof. vm_compute. reflexivity. Qed.

(** ** The row of [_analyze_job] *)

Section AnalyzeMore.
Context {L : Lib}.

Lemma body_count (st : loop_state) (u : string) :
  ls_n_w st + ls_n_b st
  <= ls_n_w (snd (body st u)) + ls_n_b (snd (body st u))
  <= ls_n_w st + ls_n_b st + 1.
Proof.
  pose proof (body_cases st u) as B.
  destruct (body st u) as [[| |x] st']; cbn in *.
  - apply body_spec_next in B as (_ & loss & _ & F).
    destruct (turn (ls_board st)); lia.
  - apply body_spec_stop in B as ((F1 & F2 & F3 & F4) & _); [lia|discriminate].
  - apply body_spec_stop in B as ((F1 & F2 & F3 & F4) & _); [lia|discriminate].
Qed.

Lemma run_loop_count (us : list string) (st : loop_state) :
  ls_n_w (snd (run_loop us st)) + ls_n_b (snd (run_loop us st))
  <= ls_n_w st + ls_n_b st + Z.of_nat (length us).
Proof.
  revert st. induction us as [|u us IH]; intros st; [simpl; lia|].
  pose proof (body_count st u) as B.
  change (length (u :: us)) with (S (length us)). simpl.
  destruct (body st u) as [[| |x] st']; simpl in *; [|lia..].
  specialize (IH st'). lia.
Qed.

Lemma after_loop_count (us : list string) (st : loop_state) :
  ls_n_w (after_loop us st) + ls_n_b (after_loop us st)
  <= ls_n_w st + ls_n_b st + Z.of_nat (length us).
Proof.
  unfold after_loop. pose proof (run_loop_count us st) as R.
  destruct (run_loop us st) as [[x|] st']; simpl in *; [|exact R].
  destruct (handle_same x st') as ((F1 & F2 & F3 & F4) & _). lia.
Qed.

Lemma accuracy_range (acpl acc : R) :
  _acpl_to_accuracy acpl = Ok acc -> (0 <= acc <= 100)%R.
Proof.
  rewrite acpl_to_accuracy_value. intros H. injection H as <-.
  pose proof (sqrt_pos (Rmax 0 acpl)).
  split; [apply Rmax_l|]. apply Rmax_lub; lra.
Qed.

Lemma average_nonneg (s n : Z) :
  0 <= s -> (0 <= IZR s / IZR (Z.max 1 n))%R.
Proof.
  intros Hs. apply Rmult_le_pos.
  - apply IZR_le. exact Hs.
  - left. apply Rinv_0_lt_compat. apply IZR_lt. lia.
Qed.

(** X5: whatever the board and the engine do, [_analyze_job] returns a
    row for the game of the job in which the count of plies is between 0
    and the number of moves, both average losses are non-negative and
    both accuracies lie between 0 and 100. *)
Theorem analyze_job_row_in_range (ms : Z) (job : Job) (e : Engine) :
  exists r : analysis_row,
    fst (_analyze_job ms job e) = Ok r /\
    game_id r = job_game_id job /\
    0 <= plies_analyzed r <= Z.of_nat (length (uci_moves job)) /\
    (0 <= acpl_white r)%R /\ (0 <= acpl_black r)%R /\
    (0 <= accuracy_white r <= 100)%R /\ (0 <= accuracy_black r <= 100)%R /\
    ms_total r = ms /\ engine r = "Stockfish" /\
    movetime_ms r = MOVETIME_MS /\ skipped_plies r = SKIP_PLIES.
Proof.
  unfold _analyze_job.
  destruct (board_of_fen (initial_fen job)) as [b|err]; cbn.
  - set (st := after_loop (uci_moves job) (initial_state b e)).
    pose proof (after_loop_acc_ok (uci_moves job) _ (initial_state_acc_ok b e))
      as (N1 & N2 & S1 & S2 & _).
    pose proof (after_loop_count (uci_moves job) (initial_state b e)) as C.
    fold st in N1, N2, S1, S2, C. cbn in C.
    unfold finish. rewrite !truediv_max. cbn.
    rewrite !acpl_to_accuracy_value. cbn.
    eexists. split; [reflexivity|]. cbn.
    split; [reflexivity|]. split; [lia|].
    split; [apply average_nonneg, S1|]. split; [apply average_nonneg, S2|].
    split; [eapply accuracy_range, acpl_to_accuracy_value|].
    split; [eapply accuracy_range, acpl_to_accuracy_value|].
    repeat split.
  - eexists. split; [reflexivity|]. cbn.
    repeat split; try lra; try lia.
Qed.

(** The loop ends in one of two ways: every move is scored, or the pass
    for some move is cut short after the moves before it were scored. *)
Lemma run_loop_cases (us : list string) (st : loop_state) :
  (exists st' : loop_state, scored_plies us st = Some st') \/
  (exists (pre post : list string) (u : string) (st_k : loop_state),
      us = pre ++ u :: post /\ scored_plies pre st = Some st_k /\
      fst (body st_k u) <> Next).
Proof.
  revert st. induction us as [|u us IH]; intros st.
  - left. exists st. reflexivity.
  - destruct (body st u) as [c st1] eqn:B.
    destruct c as [| |x].
    + destruct (IH st1) as [(st' & Hs)|(pre & post & v & st_k & -> & Hs & Hn)].
      * left. exists st'. simpl. rewrite B. exact Hs.
      * right. exists (u :: pre), post, v, st_k.
        split; [reflexivity|]. split; [simpl; rewrite B; exact Hs|exact Hn].
    + right. exists [], us, u, st. split; [reflexivity|].
      split; [reflexivity|]. rewrite B. discriminate.
    + right. exists [], us, u, st. split; [reflexivity|].
      split; [reflexivity|]. rewrite B. discriminate.
Qed.

(** X6: for a job whose start position makes a board, the row has no
    note exactly when every move of the job was analysed: a note tells
    a partial analysis and the absence of a note a complete one. *)
Theorem note_tells_partial_analysis
    (ms : Z) (job : Job) (e : Engine) (b : Board) (r : analysis_row) :
  board_of_fen (initial_fen job) = Ok b ->
  fst (_analyze_job ms job e) = Ok r ->
  (notes r = None <-> plies_analyzed r = Z.of_nat (length (uci_moves job))) /\
  (notes r <> None -> plies_analyzed r < Z.of_nat (length (uci_moves job))).
Proof.
  intros Hf. unfold _analyze_job. rewrite Hf. cbn.
  destruct (finish_ok (job_game_id job) ms
              (after_loop (uci_moves job) (initial_state b e)))
    as (r' & Hr & _ & Hp & _ & _ & _ & _ & Hn).
  rewrite Hr. intros H. injection H as <-.
  rewrite Hp, Hn. clear Hr Hp Hn.
  destruct (run_loop_cases (uci_moves job) (initial_state b e))
    as [(st' & Hs)|(pre & post & u & st_k & E & Hs & Hnx)].
  - rewrite (after_loop_scored _ _ _ Hs).
    destruct (scored_plies_count _ _ _ Hs) as (C & N). cbn in C, N.
    rewrite N. cbn. split; [split; [intros _; lia|reflexivity]|congruence].
  - rewrite E.
    destruct (after_loop_interrupted pre post u _ _ Hs Hnx)
      as ((A1 & A2 & A3 & A4) & N).
    destruct (scored_plies_count _ _ _ Hs) as (C & _). cbn in C.
    rewrite A3, A4, length_app. cbn [length].
    destruct (ls_notes (after_loop (pre ++ u :: post) (initial_state b e)))
      as [|n ns]; [congruence|].
    split; [split; [discriminate|lia]|lia].
Qed.

End AnalyzeMore.

Lemma note_tells_partial_analysis_witness :
  exists r : analysis_row,
    fst (_analyze_job 5 (Script.job "startpos" ["e2e4"; "e7e5"; "g1f3"])
           Script.two_plies) = Ok r /\
    (notes r = None <->
     plies_analyzed r
     = Z.of_nat (length (uci_moves (Script.job "startpos" ["e2e4"; "e7e5"; "g1f3"])))) /\
    (notes r <> None ->
     plies_analyzed r
     < Z.of_nat (length (uci_moves (Script.job "startpos" ["e2e4"; "e7e5"; "g1f3"])))).
Proof.
  destruct (analyze_job_returns (L := Script.lib) 5
              (Script.job "startpos" ["e2e4"; "e7e5"; "g1f3"])
              Script.two_plies) as (r & Hr & _).
  exists r. split; [exact Hr|].
  apply (note_tells_partial_analysis (L := Script.lib) 5
           (Script.job "startpos" ["e2e4"; "e7e5"; "g1f3"]) Script.two_plies []).
  - reflexivity.
  - exact Hr.
Defined.

(** ** The accuracy mapping, further *)



(** ** The white score, further *)

Lemma neg_involutive (s : Score) : neg (neg s) = s.
Proof.
  destruct s as [n|n|]; simpl; [f_equal; lia| |reflexivity].
  destruct (Z.eqb_spec n 0) as [->|Hn]; simpl; [reflexivity|].
  destruct (Z.eqb_spec (- n) 0); [lia|]. f_equal. lia.
Qed.

Lemma mate_neg (s : Score) :
  mate (neg s) = option_map Z.opp (mate s).
Proof.
  destruct s as [n|n|]; simpl; try reflexivity.
  destruct (Z.eqb_spec n 0) as [->|Hn]; reflexivity.
Qed.

(** X8: the white score does not depend on the side from which the
    engine reports: a score for one side and its negation for the other
    side are converted to the same number. *)
Theorem score_cp_white_same_from_both_sides (s : Score) (t : bool) :
  _score_cp_white {| relative := neg s; pov_turn := negb t |}
  = _score_cp_white {| relative := s; pov_turn := t |}.
Proof.
  unfold _score_cp_white, is_mate, white. cbn.
  rewrite mate_neg.
  destruct t; cbn; rewrite ?neg_involutive;
    destruct (mate s) eqn:M; cbn; reflexivity.
Qed.

(** X9: apart from the two scores of a mate on the board ([Mate 0] and
    [MateGiven]), reading the same relative score for the other side
    turns the sign of the white score, and the score of the side to move
    made from it is the same for both sides. *)
Theorem score_cp_white_other_side_opposite (s : Score) (t : bool) :
  s <> Mate 0 -> s <> MateGiven ->
  _score_cp_white {| relative := s; pov_turn := negb t |}
  = - _score_cp_white {| relative := s; pov_turn := t |} /\
  pov (negb t) (_score_cp_white {| relative := s; pov_turn := negb t |})
  = pov t (_score_cp_white {| relative := s; pov_turn := t |}).
Proof.
  intros H0 HG.
  assert (E : _score_cp_white {| relative := s; pov_turn := false |}
              = - _score_cp_white {| relative := s; pov_turn := true |}).
  { unfold _score_cp_white, is_mate, white. cbn.
    destruct s as [n|n|]; cbn; [reflexivity| |contradiction].
    destruct (Z.eqb_spec n 0) as [->|Hn]; [contradiction|]. cbn.
    destruct (Z.eqb_spec (- n) 0); [lia|]. cbn.
    destruct (Z.ltb_spec 0 n), (Z.ltb_spec 0 (- n)); lia. }
  destruct t; cbn [negb pov]; rewrite E; split; lia.
Qed.

Lemma score_cp_white_other_side_opposite_witness :
  _score_cp_white {| relative := Mate 3; pov_turn := negb true |}
  = - _score_cp_white {| relative := Mate 3; pov_turn := true |} /\
  pov (negb true) (_score_cp_white {| relative := Mate 3; pov_turn := negb true |})
  = pov true (_score_cp_white {| relative := Mate 3; pov_turn := true |}).
Proof.
  apply (score_cp_white_other_side_opposite (Mate 3) true); discriminate.
Defined.

(** ** Batches *)

Lemma has_row_upserted (gid : Z) (r : analysis_row) (t : list analysis_row) :
  has_row gid (upserted r t) = has_row gid t || (gid =? game_id r).
Proof.
  unfold upserted. destruct (has_row (game_id r) t) eqn:E.
  - assert (K : has_row gid
                  (map (fun x => if game_id x =? game_id r
                                 then do_update r x else x) t)
                = has_row gid t).
    { unfold has_row. clear E. induction t as [|x t IH]; [reflexivity|].
      cbn. rewrite IH. f_equal.
      destruct (game_id x =? game_id r); reflexivity. }
    rewrite K. destruct (Z.eqb_spec gid (game_id r)) as [->|_].
    + rewrite E. reflexivity.
    + rewrite orb_false_r. reflexivity.
  - unfold has_row. rewrite existsb_app. cbn. rewrite orb_false_r.
    rewrite (Z.eqb_sym (game_id r) gid). reflexivity.
Qed.

Lemma upsert_cases (r : analysis_row) (d : db) :
  (accepts d r /\
   upsert r d = (Ok (), set_analysis d (upserted r (analysis d)))) \/
  (~ accepts d r /\
   upsert r d = (Raise (IntegrityError "FOREIGN KEY constraint failed"), d)).
Proof.
  unfold accepts, upsert, upserted.
  destruct (has_row (game_id r) (analysis d)) eqn:E1.
  - left. auto.
  - destruct (has_game (game_id r) d) eqn:E2.
    + left. auto.
    + right. split; [|reflexivity]. intros [H|H]; discriminate.
Qed.

Lemma accepts_after (r x : analysis_row) (d : db) :
  accepts d r ->
  (accepts (set_analysis d (upserted r (analysis d))) x <-> accepts d x).
Proof.
  unfold accepts.
  change (has_game (game_id x) (set_analysis d (upserted r (analysis d))))
    with (has_game (game_id x) d).
  change (analysis (set_analysis d (upserted r (analysis d))))
    with (upserted r (analysis d)).
  rewrite has_row_upserted, orb_true_iff.
  intros Hr. split; [|tauto].
  intros [H|[H|H]]; auto.
  apply Z.eqb_eq in H. rewrite H. exact Hr.
Qed.

(** The table after the rows were upserted from left to right. *)
Lemma executemany_cases (rows : list analysis_row) (d : db) :
  (Forall (accepts d) rows /\
   executemany rows d
   = (Ok (), set_analysis d
               (fold_left (fun t r => upserted r t) rows (analysis d)))) \/
  (~ Forall (accepts d) rows /\
   exists (e : exn) (d' : db), executemany rows d = (Raise e, d')).
Proof.
  revert d. induction rows as [|r rows IH]; intros d.
  - left. split; [constructor|]. cbn. destruct d; reflexivity.
  - cbn [executemany]. unfold mbind, M_bind.
    destruct (upsert_cases r d) as [(Ha & ->)|(Hn & ->)].
    + destruct (IH (set_analysis d (upserted r (analysis d))))
        as [(Hall & ->)|(Hnall & e & d' & ->)].
      * left. split; [|reflexivity]. constructor; [exact Ha|].
        eapply Forall_impl; [exact Hall|]. intros x. cbn beta.
        apply accepts_after, Ha.
      * right. split; [|eauto]. intros Hall. apply Hnall.
        apply Forall_cons in Hall as [_ Hall].
        eapply Forall_impl; [exact Hall|]. intros x. cbn beta.
        apply accepts_after, Ha.
    + right. split; [|eauto]. intros Hall.
      apply Forall_cons in Hall as [Ha _]. contradiction.
Qed.

Lemma batch_cases (rows : list analysis_row) (d : db) :
  (Forall (accepts d) rows /\
   upsert_analysis_batch rows d
   = (Ok (), set_analysis d
               (fold_left (fun t r => upserted r t) rows (analysis d)))) \/
  (~ Forall (accepts d) rows /\
   exists e : exn, upsert_analysis_batch rows d = (Raise e, d)).
Proof.
  destruct rows as [|r rows].
  - left. split; [constructor|]. cbn. destruct d; reflexivity.
  - unfold upsert_analysis_batch.
    destruct (executemany_cases (r :: rows) d)
      as [(Hall & ->)|(Hn & e & d' & ->)]; [left|right]; eauto.
Qed.

(** X10: a batch is written exactly when the store takes every row of
    it, that is when the game of each row is stored or has a row
    already; a batch with a row that is not taken raises and leaves the
    whole store as it was, and no batch changes the tables of players,
    games and moves. *)
Theorem batch_all_or_nothing (rows : list analysis_row) (d : db) :
  (fst (upsert_analysis_batch rows d) = Ok () <-> Forall (accepts d) rows) /\
  (fst (upsert_analysis_batch rows d) <> Ok () ->
   snd (upsert_analysis_batch rows d) = d) /\
  same_games d (snd (upsert_analysis_batch rows d)).
Proof.
  destruct (batch_cases rows d) as [(Hall & ->)|(Hn & e & ->)]; cbn.
  - split; [tauto|]. split; [congruence|]. unfold same_games. auto.
  - split; [split; [discriminate|contradiction]|].
    split; [reflexivity|]. unfold same_games. auto.
Qed.

Lemma last_row_of_found (gid : Z) (rows : list analysis_row)
    (found : option analysis_row) :
  fold_left (fun found r => if game_id r =? gid then Some r else found)
    rows found
  = match last_row_of gid rows with
    | Some x => Some x
    | None => found
    end.
Proof.
  unfold last_row_of. revert found.
  induction rows as [|x rows IH]; intros found; cbn [fold_left];
    [reflexivity|].
  destruct (game_id x =? gid); [|apply IH].
  rewrite (IH (Some x)).
  destruct (fold_left _ rows None); reflexivity.
Qed.

Lemma last_row_of_cons (gid : Z) (r : analysis_row) (rows : list analysis_row) :
  last_row_of gid (r :: rows)
  = match last_row_of gid rows with
    | Some x => Some x
    | None => if game_id r =? gid then Some r else None
    end.
Proof.
  unfold last_row_of at 1. cbn [fold_left]. apply last_row_of_found.
Qed.

Lemma upserted_all (rows : list analysis_row) (t : list analysis_row) :
  NoDup (map game_id t) ->
  NoDup (map game_id (fold_left (fun t r => upserted r t) rows t)) /\
  forall gid : Z,
    List.filter (fun x => game_id x =? gid)
      (fold_left (fun t r => upserted r t) rows t)
    = match last_row_of gid rows with
      | Some r => [r]
      | None => List.filter (fun x => game_id x =? gid) t
      end.
Proof.
  revert t. induction rows as [|r rows IH]; intros t Hn; cbn [fold_left].
  - split; [exact Hn|]. reflexivity.
  - pose proof (upserted_keys r t Hn) as Hn1.
    destruct (IH (upserted r t) Hn1) as (Hn2 & Hf).
    split; [exact Hn2|]. intros gid. rewrite Hf, last_row_of_cons.
    destruct (last_row_of gid rows); [reflexivity|].
    destruct (Z.eqb_spec (game_id r) gid) as [<-|Hne].
    + destruct (upserted_row r t) as (Hh & Hall).
      apply filter_single; assumption.
    + apply upserted_others. congruence.
Qed.

Lemma upserted_all_keys (rows : list analysis_row) (t : list analysis_row) (x : analysis_row) :
  In x (fold_left (fun t r => upserted r t) rows t) ->
  In (game_id x) (map game_id t) \/ In (game_id x) (map game_id rows).
Proof.
  revert t. induction rows as [|r rows IH]; intros t Hx; cbn [fold_left] in Hx.
  - left. apply in_map, Hx.
  - apply IH in Hx as [Hx|Hx]; [|right; right; exact Hx].
    apply has_row_iff in Hx. rewrite has_row_upserted in Hx.
    apply orb_true_iff in Hx as [Hx|Hx].
    + left. apply has_row_iff, Hx.
    + right. left. apply Z.eqb_eq in Hx. congruence.
Qed.

(** X11: in a store where the key of [analysis] is unique, a batch that
    is written leaves, for every game with a row in the batch, one row:
    the last row of that game in the batch; the rows of the other games
    stay as they were.  The key stays unique, and when every row
    referred to a stored game before, every row does after. *)
Theorem batch_last_write_wins (rows : list analysis_row) (d d' : db) :
  analysis_key_unique d ->
  upsert_analysis_batch rows d = (Ok (), d') ->
  (forall gid : Z,
      analysis_of gid d' = match last_row_of gid rows with
                           | Some r => [r]
                           | None => analysis_of gid d
                           end) /\
  analysis_key_unique d' /\
  (analysis_refs_games d -> analysis_refs_games d').
Proof.
  intros Hu Hb.
  destruct (batch_cases rows d) as [(Hall & E)|(_ & e & E)];
    rewrite E in Hb; [|discriminate].
  injection Hb as <-.
  destruct (upserted_all rows (analysis d) Hu) as (Hn & Hf).
  split; [exact Hf|]. split; [exact Hn|].
  intros Hrefs x Hx. cbn in Hx. unfold has_game. cbn.
  apply upserted_all_keys in Hx as [Hx|Hx].
  - apply List.in_map_iff in Hx as (y & Hy & Hin). rewrite <- Hy.
    apply (Hrefs y Hin).
  - apply List.in_map_iff in Hx as (y & Hy & Hin). rewrite <- Hy.
    rewrite List.Forall_forall in Hall.
    destruct (Hall y Hin) as [Hg|Hr]; [exact Hg|].
    apply has_row_iff, List.in_map_iff in Hr as (z & Hz & Hzin).
    rewrite <- Hz. apply (Hrefs z Hzin).
Qed.

Lemma batch_last_write_wins_witness :
  let rows := [Sample.row 10 3 (Some "engine terminated"); Sample.row 11 2 None;
               Sample.row 10 2 None] in
  let d' := set_analysis Sample.store
              [Sample.row 10 2 None; Sample.row 11 2 None] in
  (forall gid : Z,
      analysis_of gid d' = match last_row_of gid rows with
                           | Some r => [r]
                           | None => analysis_of gid Sample.store
                           end) /\
  analysis_key_unique d' /\
  (analysis_refs_games Sample.store -> analysis_refs_games d').
Proof.
  apply (batch_last_write_wins
           [Sample.row 10 3 (Some "engine terminated"); Sample.row 11 2 None;
            Sample.row 10 2 None]
           Sample.store).
  - unfold analysis_key_unique. simpl. apply NoDup_nil_2.
  - reflexivity.
Defined.

(** ** Sorting and cutting into batches *)

Lemma has_row_upserted_all (gid : Z) (rows t : list analysis_row) :
  has_row gid (fold_left (fun t r => upserted r t) rows t)
  = has_row gid t || existsb (fun r => gid =? game_id r) rows.
Proof.
  revert t. induction rows as [|r rows IH]; intros t; cbn [fold_left existsb].
  - rewrite orb_false_r. reflexivity.
  - rewrite IH, has_row_upserted, orb_assoc. reflexivity.
Qed.

Lemma accepts_after_all (rows : list analysis_row) (x : analysis_row) (d : db) :
  Forall (accepts d) rows ->
  (accepts (set_analysis d
              (fold_left (fun t r => upserted r t) rows (analysis d))) x
   <-> accepts d x).
Proof.
  intros Hall. unfold accepts.
  change (has_game (game_id x) (set_analysis d ?t))
    with (has_game (game_id x) d).
  change (analysis (set_analysis d ?t)) with t.
  rewrite has_row_upserted_all, orb_true_iff. split; [|tauto].
  intros [H|[H|H]]; auto.
  apply existsb_exists in H as (r & Hr & E). apply Z.eqb_eq in E.
  rewrite List.Forall_forall in Hall. rewrite E. exact (Hall r Hr).
Qed.

Lemma range_step_batch (n : nat) :
  (0 < n)%nat ->
  range_step n BATCH
  = 0%nat :: map (fun i => (i + BATCH)%nat) (range_step (n - BATCH) BATCH).
Proof.
  intros Hn. unfold range_step.
  assert (E : ((n + BATCH - 1) / BATCH
               = S ((n - BATCH + BATCH - 1) / BATCH))%nat).
  { replace (n + BATCH - 1)%nat with (n - 1 + 1 * BATCH)%nat by lia.
    rewrite Nat.div_add by (unfold BATCH; lia).
    destruct (Nat.le_gt_cases BATCH n) as [Hge|Hlt].
    - replace (n - BATCH + BATCH - 1)%nat with (n - 1)%nat by lia. lia.
    - replace (n - BATCH + BATCH - 1)%nat with (BATCH - 1)%nat by lia.
      rewrite !Nat.div_small by (unfold BATCH in *; lia). reflexivity. }
  rewrite E. cbn [seq map]. f_equal.
  rewrite <- seq_shift, !map_map. apply map_ext. intros j. lia.
Qed.

Lemma upsert_from_shift (rows : list analysis_row) (starts : list nat) :
  upsert_from rows (map (fun i => (i + BATCH)%nat) starts)
  = upsert_from (skipn BATCH rows) starts.
Proof.
  induction starts as [|i starts IH]; [reflexivity|].
  cbn [map upsert_from]. rewrite IH. unfold slice.
  rewrite skipn_skipn.
  replace (i + BATCH + BATCH - (i + BATCH))%nat with (i + BATCH - i)%nat by lia.
  reflexivity.
Qed.

(** The loop over the batches of any list of rows: either every row is
    taken and the store ends as after one batch of all rows, or the
    loop stops at the first batch with a row that is not taken and the
    store holds the whole batches before it. *)
Lemma upsert_from_cases (rows : list analysis_row) (d : db) :
  (Forall (accepts d) rows /\
   upsert_from rows (range_step (length rows) BATCH) d
   = (Ok (), set_analysis d
               (fold_left (fun t r => upserted r t) rows (analysis d)))) \/
  (exists (e : exn) (k : nat),
      Forall (accepts d) (firstn (k * BATCH) rows) /\
      ~ Forall (accepts d) (firstn BATCH (skipn (k * BATCH) rows)) /\
      upsert_from rows (range_step (length rows) BATCH) d
      = (Raise e,
         set_analysis d
           (fold_left (fun t r => upserted r t) (firstn (k * BATCH) rows)
              (analysis d)))).
Proof.
  remember (length rows) as n eqn:Hlen. revert rows d Hlen.
  induction n as [n IH] using lt_wf_ind. intros rows d Hlen.
  destruct rows as [|r0 rows0].
  - left. split; [constructor|]. subst n. cbn. destruct d; reflexivity.
  - set (rows := r0 :: rows0) in *.
    assert (Hpos : (0 < n)%nat) by (subst n; cbn; lia).
    rewrite (range_step_batch n Hpos). cbn [upsert_from].
    rewrite upsert_from_shift. unfold mbind, M_bind.
    change (slice rows 0 (0 + BATCH)) with (firstn BATCH rows).
    assert (Hlen2 : (n - BATCH)%nat = length (skipn BATCH rows)).
    { rewrite length_skipn. lia. }
    assert (Hlt : (n - BATCH < n)%nat) by (unfold BATCH; lia).
    destruct (batch_cases (firstn BATCH rows) d) as [(H1 & ->)|(H1 & e & ->)].
    + set (d1 := set_analysis d
                   (fold_left (fun t r => upserted r t) (firstn BATCH rows)
                      (analysis d))).
      cbv beta iota. fold d1.
      destruct (IH _ Hlt (skipn BATCH rows) d1 Hlen2)
        as [(H2 & E)|(e & k & H2 & H3 & E)]; rewrite E.
      * left. split.
        -- rewrite <- (firstn_skipn BATCH rows). apply Forall_app. split; [exact H1|].
           eapply Forall_impl; [exact H2|]. intros x. cbn beta.
           apply accepts_after_all, H1.
        -- unfold d1. cbn. rewrite <- fold_left_app, firstn_skipn.
           reflexivity.
      * right. exists e, (S k).
        assert (Hk : firstn (S k * BATCH) rows
                     = firstn BATCH rows ++ firstn (k * BATCH) (skipn BATCH rows)).
        { rewrite take_take_drop. f_equal. }
        split; [|split].
        -- rewrite Hk. apply Forall_app. split; [exact H1|].
           eapply Forall_impl; [exact H2|]. intros x. cbn beta.
           apply accepts_after_all, H1.
        -- intros Hall. apply H3. rewrite skipn_skipn.
           replace (k * BATCH + BATCH)%nat with (S k * BATCH)%nat by lia.
           eapply Forall_impl; [exact Hall|]. intros x Hx. cbn beta.
           apply accepts_after_all; assumption.
        -- rewrite Hk, fold_left_app. reflexivity.
    + right. exists e, 0%nat. cbn [Nat.mul firstn skipn fold_left].
      split; [constructor|]. split; [exact H1|]. destruct d; reflexivity.
Qed.

(** Sorting by the key keeps the order of the rows of one game. *)
Lemma last_row_of_insert_by (gid : Z) (a : analysis_row) (l : list analysis_row) :
  last_row_of gid (insert_by game_id a l) = last_row_of gid (a :: l).
Proof.
  induction l as [|y l IH]; [reflexivity|]. cbn [insert_by].
  destruct (Z.leb_spec (game_id a) (game_id y)) as [Hle|Hlt]; [reflexivity|].
  rewrite last_row_of_cons, IH, !last_row_of_cons.
  destruct (last_row_of gid l); [reflexivity|].
  destruct (Z.eqb_spec (game_id a) gid), (Z.eqb_spec (game_id y) gid);
    try reflexivity. lia.
Qed.

Lemma last_row_of_order_by (gid : Z) (rows : list analysis_row) :
  last_row_of gid (order_by game_id rows) = last_row_of gid rows.
Proof.
  induction rows as [|a rows IH]; [reflexivity|].
  cbn [order_by fold_right]. fold (order_by game_id rows).
  rewrite last_row_of_insert_by, !last_row_of_cons, IH. reflexivity.
Qed.

Lemma Forall_order_by (P : analysis_row -> Prop) (rows : list analysis_row) :
  Forall P (order_by game_id rows) <-> Forall P rows.
Proof.
  rewrite !List.Forall_forall. split; intros H x Hx; apply H.
  - apply order_by_In, Hx.
  - apply order_by_In in Hx. exact Hx.
Qed.

(** X12: the end of [main] writes all rows exactly when the store takes
    every one of them.  What it then leaves does not depend on the
    sorting or on the cut into batches of 400: in a store with a unique
    key every game among the rows has one row, the last one that the
    list of results holds for it, the other games keep their rows, and
    the tables of players, games and moves are as before. *)
Theorem persist_rows_as_one_batch (rows : list analysis_row) (d : db) :
  (fst (persist_rows rows d) = Ok () <-> Forall (accepts d) rows) /\
  (fst (persist_rows rows d) = Ok () -> analysis_key_unique d ->
   (forall gid : Z,
       analysis_of gid (snd (persist_rows rows d))
       = match last_row_of gid rows with
         | Some r => [r]
         | None => analysis_of gid d
         end) /\
   analysis_key_unique (snd (persist_rows rows d))) /\
  same_games d (snd (persist_rows rows d)).
Proof.
  unfold persist_rows.
  destruct (upsert_from_cases (order_by game_id rows) d)
    as [(Hall & E)|(e & k & H1 & H2 & E)]; rewrite E; cbn [fst snd].
  - split; [split; [intros _; apply Forall_order_by, Hall|reflexivity]|].
    split; [|unfold same_games; auto].
    intros _ Hu.
    destruct (upserted_all (order_by game_id rows) (analysis d) Hu) as (Hn & Hf).
    split; [|exact Hn]. intros gid.
    unfold analysis_of. cbn. rewrite Hf, last_row_of_order_by. reflexivity.
  - split; [|split; [discriminate|unfold same_games; auto]].
    split; [discriminate|]. intros Hall. exfalso. apply H2.
    apply Forall_order_by in Hall.
    rewrite <- (firstn_skipn (k * BATCH) (order_by game_id rows)) in Hall.
    apply Forall_app in Hall as [_ Hall].
    rewrite <- (firstn_skipn BATCH (skipn (k * BATCH) (order_by game_id rows)))
      in Hall.
    apply Forall_app in Hall as [Hall _]. exact Hall.
Qed.

(** X13: when the end of [main] raises, the store holds the rows of the
    whole batches before the first batch with a row that the store does
    not take, as one batch of them would leave them, and nothing of that
    batch or of the batches after it. *)
Theorem persist_rows_keeps_whole_batches (rows : list analysis_row) (d : db) :
  fst (persist_rows rows d) <> Ok () ->
  exists k : nat,
    let sorted := order_by game_id rows in
    Forall (accepts d) (firstn (k * BATCH) sorted) /\
    ~ Forall (accepts d) (firstn BATCH (skipn (k * BATCH) sorted)) /\
    snd (persist_rows rows d)
    = snd (upsert_analysis_batch (firstn (k * BATCH) sorted) d).
Proof.
  unfold persist_rows. intros Hf.
  destruct (upsert_from_cases (order_by game_id rows) d)
    as [(Hall & E)|(e & k & H1 & H2 & E)]; rewrite E in *; cbn [fst snd] in *;
    [congruence|].
  exists k. cbv zeta. split; [exact H1|]. split; [exact H2|].
  destruct (batch_cases (firstn (k * BATCH) (order_by game_id rows)) d)
    as [(_ & ->)|(Hn & _)]; [reflexivity|contradiction].
Qed.

Lemma persist_rows_keeps_whole_batches_witness :
  exists k : nat,
    let sorted := order_by game_id [Sample.row 10 2 None; Sample.row 1 0 None] in
    Forall (accepts Sample.store) (firstn (k * BATCH) sorted) /\
    ~ Forall (accepts Sample.store) (firstn BATCH (skipn (k * BATCH) sorted)) /\
    snd (persist_rows [Sample.row 10 2 None; Sample.row 1 0 None] Sample.store)
    = snd (upsert_analysis_batch (firstn (k * BATCH) sorted) Sample.store).
Proof.
  apply (persist_rows_keeps_whole_batches
           [Sample.row 10 2 None; Sample.row 1 0 None] Sample.store).
  cbn. discriminate.
Defined.

(** ** From the scan to the store *)

Lemma scan_games_ok (games : list PgnGame) (jobs0 jobs : list Job) (d d' : db) :
  scan_games games jobs0 d = (Ok jobs, d') ->
  d' = d /\ jobs = jobs0 ++ omap (job_for d) games.
Proof.
  revert jobs0. induction games as [|game games IH]; intros jobs0; simpl.
  - intros H. injection H as <- <-. rewrite app_nil_r. auto.
  - unfold mbind, M_bind. rewrite scan_game_job_for.
    destruct (pg_board game) as [fen|e]; [|discriminate].
    intros H. apply IH in H as (-> & ->). split; [reflexivity|].
    destruct (job_for d game); simpl.
    + rewrite <- app_assoc. reflexivity.
    + rewrite app_nil_r. reflexivity.
Qed.

Section Pipeline.
Context {L : Lib}.

(** X14: the rows that [_analyze_job] returns for jobs of the scan are
    all taken by the store that was scanned: written at the end of
    [main] they raise no foreign-key error, whatever the engines and
    the order of completion, and every job with a row has then exactly
    its last row in a store whose key was unique. *)
Theorem scanned_jobs_rows_are_taken
    (games : list PgnGame) (d d' : db) (jobs : list Job)
    (rows : list analysis_row) :
  scan_pgn_and_resolve_jobs games d = (Ok jobs, d') ->
  Forall (fun r => exists (j : Job) (ms : Z) (e : Engine),
                     In j jobs /\ fst (_analyze_job ms j e) = Ok r) rows ->
  d' = d /\
  fst (persist_rows rows d') = Ok () /\
  (analysis_key_unique d' ->
   forall r : analysis_row, In r rows ->
     exists r' : analysis_row,
       last_row_of (game_id r) rows = Some r' /\
       analysis_of (game_id r) (snd (persist_rows rows d')) = [r']).
Proof.
  intros Hs Hrows. unfold scan_pgn_and_resolve_jobs in Hs.
  apply scan_games_ok in Hs as (-> & ->). cbn [app] in Hrows.
  split; [reflexivity|].
  assert (Hacc : Forall (accepts d) rows).
  { eapply Forall_impl; [exact Hrows|]. cbn beta.
    intros r (j & ms & e & Hj & Hr). left.
    destruct (analyze_job_returns ms j e) as (r' & Hr' & Hid).
    rewrite Hr in Hr'. injection Hr' as <-. rewrite Hid.
    apply list_elem_of_In, list_elem_of_omap in Hj as (game & _ & Hj).
    apply job_for_some in Hj. tauto. }
  destruct (persist_rows_as_one_batch rows d) as (Hok & Hfin & _).
  apply Hok in Hacc. split; [exact Hacc|].
  intros Hu r Hr. destruct (Hfin Hacc Hu) as (Hf & _).
  rewrite Hf.
  assert (Hl : exists r', last_row_of (game_id r) rows = Some r').
  { clear -Hr. induction rows as [|x rows IH]; [destruct Hr|].
    rewrite last_row_of_cons. destruct Hr as [->|Hr].
    - destruct (last_row_of (game_id r) rows); [eauto|].
      rewrite Z.eqb_refl. eauto.
    - destruct (IH Hr) as (r' & ->). eauto. }
  destruct Hl as (r' & Hl). rewrite Hl. eauto.
Qed.

End Pipeline.

Lemma scanned_jobs_rows_are_taken_witness :
  exists r0 : analysis_row,
    Sample.store = Sample.store /\
    fst (persist_rows [r0] Sample.store) = Ok () /\
    (analysis_key_unique Sample.store ->
     forall r : analysis_row, In r [r0] ->
       exists r' : analysis_row,
         last_row_of (game_id r) [r0] = Some r' /\
         analysis_of (game_id r) (snd (persist_rows [r0] Sample.store)) = [r']).
Proof.
  pose (job := {| job_game_id := 11; initial_fen := "startpos";
                  uci_moves := ["e2e4"; "e7e5"];
                  tags := Sample.tags "Alice" "Bob" "2021.01.01" |}).
  destruct (analyze_job_returns (L := Script.lib) 5 job Script.two_plies)
    as (r0 & Hr0 & _).
  exists r0.
  apply (scanned_jobs_rows_are_taken (L := Script.lib) [sample_pgn_game]
           Sample.store Sample.store [job] [r0]).
  - vm_compute. reflexivity.
  - constructor; [|constructor].
    exists job, 5, Script.two_plies. split; [left; reflexivity|exact Hr0].
Defined.

(** ** The loader's date and the resolver's date *)

Lemma date_isoformat_ok (y m d : Z) (iso : string) :
  date_isoformat y m d = Ok iso ->
  iso = format_0d 4 y +:+ "-" +:+ format_0d 2 m +:+ "-" +:+ format_0d 2 d /\
  1 <= y <= 9999 /\ 1 <= m <= 12 /\ 1 <= d <= days_in_month y m.
Proof.
  unfold date_isoformat.
  destruct ((1 <=? y) && (y <=? 9999) && (1 <=? m) && (m <=? 12)
            && (1 <=? d) && (d <=? days_in_month y m)) eqn:E; [|discriminate].
  intros H. injection H as <-. split; [reflexivity|].
  repeat (apply andb_true_iff in E as [E ?]). lia.
Qed.

(** X15: the date that the resolver computes agrees with the date that
    the loader stores.  The loader's [parse_pgn_date] never raises;
    whenever it gives a date, [parse_pgn_date_to_iso] gives the same
    string for the same tag, and whenever the resolver's date is null
    the loader's date is null. *)
Theorem loader_date_is_resolver_date :
  (forall s : option string,
      exists v : option string, parse_pgn_date s = Ok v) /\
  (forall (s : option string) (iso : string),
      parse_pgn_date s = Ok (Some iso) ->
      parse_pgn_date_to_iso s = Ok (Some iso)) /\
  (forall s : option string,
      parse_pgn_date_to_iso s = Ok None -> parse_pgn_date s = Ok None).
Proof.
  assert (K : forall s : option string,
             (exists v, parse_pgn_date s = Ok v) /\
             (forall iso, parse_pgn_date s = Ok (Some iso) ->
                          parse_pgn_date_to_iso s = Ok (Some iso)) /\
             (parse_pgn_date_to_iso s = Ok None -> parse_pgn_date s = Ok None)).
  { intros [s|]; [|repeat split; eauto; discriminate].
    unfold parse_pgn_date, parse_pgn_date_to_iso.
    destruct (String.eqb s "" || startswith s "?");
      [repeat split; eauto; discriminate|].
    destruct (index (split "." s) 0) as [p0|e0]; cbn;
      [|repeat split; eauto; discriminate].
    destruct (int p0) as [y|e]; cbn; [|repeat split; eauto; discriminate].
    destruct (index (split "." s) 1) as [p1|e1]; cbn;
      [|repeat split; eauto; discriminate].
    destruct (if String.eqb p1 "??" then Ok 1 else int p1) as [m|e]; cbn;
      [|repeat split; eauto; discriminate].
    destruct (index (split "." s) 2) as [p2|e2]; cbn;
      [|repeat split; eauto; discriminate].
    destruct (if String.eqb p2 "??" then Ok 1 else int p2) as [d|e]; cbn;
      [|repeat split; eauto; discriminate].
    destruct (date_isoformat y m d) as [iso|e] eqn:E; cbn.
    - apply date_isoformat_ok in E as (-> & _).
      repeat split; eauto; discriminate.
    - repeat split; eauto; discriminate. }
  split; [|split].
  - intros s. apply K.
  - intros s. apply K.
  - intros s. apply K.
Qed.

Example loader_date_samples :
  parse_pgn_date (Some "2021.02.28") = Ok (Some "2021-02-28") /\
  parse_pgn_date (Some "2020.02.29") = Ok (Some "2020-02-29") /\
  parse_pgn_date (Some "2021.??.??") = Ok (Some "2021-01-01") /\
  parse_pgn_date (Some "2021.02.29") = Ok None /\
  parse_pgn_date_to_iso (Some "2021.02.29") = Ok (Some "2021-02-29") /\
  parse_pgn_date (Some "1900.02.29") = Ok None /\
  parse_pgn_date (Some "2021.00.00") = Ok None.
Proof. repeat split; reflexivity. Qed.

(** ** Dates written as the PGN standard asks *)

Lemma split_no_dot (a : string) :
  no_dot a = true ->
  split "." a = [a] /\
  forall r : string, split "." (a +:+ String "." r) = a :: split "." r.
Proof.
  induction a as [|c a IH]; intros H.
  - split; reflexivity.
  - cbn [no_dot] in H. apply andb_true_iff in H as [Hc Ha].
    apply negb_true_iff in Hc. destruct (IH Ha) as [I1 I2].
    split.
    + cbn [split]. rewrite Hc, I1. reflexivity.
    + intros r. change (String c a +:+ String "." r)
        with (String c (a +:+ String "." r)).
      cbn [split]. rewrite Hc, I2. reflexivity.
Qed.

Lemma split_pgn_date (a b c : string) :
  no_dot a = true -> no_dot b = true -> no_dot c = true ->
  split "." (a +:+ "." +:+ b +:+ "." +:+ c) = [a; b; c].
Proof.
  intros Ha Hb Hc.
  change (a +:+ "." +:+ b +:+ "." +:+ c)
    with (a +:+ String "." (b +:+ String "." c)).
  destruct (split_no_dot a Ha) as [_ ->].
  destruct (split_no_dot b Hb) as [_ ->].
  destruct (split_no_dot c Hc) as [-> _]. reflexivity.
Qed.

Lemma upto_In (n : nat) (z : Z) : 0 <= z < Z.of_nat n -> In z (upto n).
Proof.
  intros H. unfold upto. apply List.in_map_iff. exists (Z.to_nat z).
  split; [lia|]. apply in_seq. lia.
Qed.

Lemma year_fields_ok : forallb (field_ok 4) (upto (100 * 100)) = true.
Proof. vm_compute. reflexivity. Qed.

Lemma short_fields_ok : forallb (field_ok 2) (upto 100) = true.
Proof. vm_compute. reflexivity. Qed.

Lemma field_ok_spec (w : nat) (z : Z) :
  field_ok w z = true ->
  no_dot (format_0d w z) = true /\
  format_0d w z <> "" /\
  String.eqb (format_0d w z) "??" = false /\
  startswith (format_0d w z) "?" = false /\
  int (format_0d w z) = Ok z.
Proof.
  unfold field_ok. cbv zeta. intros H.
  repeat (apply andb_true_iff in H as [H ?]).
  repeat match goal with
         | K : negb _ = true |- _ => apply negb_true_iff in K
         end.
  repeat split; try assumption.
  - intros E. rewrite E in *. discriminate.
  - destruct (int (format_0d w z)) as [v|e]; [|discriminate].
    f_equal. lia.
Qed.

Lemma startswith_app (a r : string) :
  a <> "" -> startswith a "?" = false -> startswith (a +:+ r) "?" = false.
Proof.
  unfold startswith. destruct a as [|c a]; [congruence|]. intros _.
  change (String c a +:+ r) with (String c (a +:+ r)).
  cbn [String.prefix]. destruct (ascii_dec "?" c); [|reflexivity].
  intros H. exfalso. destruct a; discriminate H.
Qed.

Lemma parse_pgn_date_loader_fields (s p0 p1 p2 : string) (rest : list string)
    (y m dd : Z) :
  s <> "" -> startswith s "?" = false ->
  split "." s = p0 :: p1 :: p2 :: rest ->
  int p0 = Ok y ->
  (if String.eqb p1 "??" then m = 1 else int p1 = Ok m) ->
  (if String.eqb p2 "??" then dd = 1 else int p2 = Ok dd) ->
  parse_pgn_date (Some s)
  = match date_isoformat y m dd with
    | Ok iso => Ok (Some iso)
    | Raise _ => Ok None
    end.
Proof.
  intros Hne Hq Hs Hy Hm Hd. unfold parse_pgn_date.
  destruct (String.eqb_spec s "") as [E|_]; [contradiction|].
  rewrite Hq, Hs. cbn. rewrite Hy. cbn.
  destruct (String.eqb p1 "??"); destruct (String.eqb p2 "??"); subst;
    try rewrite Hm; try rewrite Hd; cbn;
    destruct (date_isoformat _ _ _); reflexivity.
Qed.

Lemma pgn_date_parts (y m d : Z) :
  0 <= y <= 9999 -> 0 <= m <= 99 -> 0 <= d <= 99 ->
  pgn_date y m d <> "" /\
  startswith (pgn_date y m d) "?" = false /\
  split "." (pgn_date y m d)
  = [format_0d 4 y; format_0d 2 m; format_0d 2 d] /\
  int (format_0d 4 y) = Ok y /\
  (if String.eqb (format_0d 2 m) "??" then m = 1
   else int (format_0d 2 m) = Ok m) /\
  (if String.eqb (format_0d 2 d) "??" then d = 1
   else int (format_0d 2 d) = Ok d).
Proof.
  intros Hy Hm Hd.
  pose proof (proj1 (forallb_forall _ _) year_fields_ok y
                (upto_In (100 * 100) y ltac:(lia))) as Fy.
  pose proof (proj1 (forallb_forall _ _) short_fields_ok m
                (upto_In 100 m ltac:(lia))) as Fm.
  pose proof (proj1 (forallb_forall _ _) short_fields_ok d
                (upto_In 100 d ltac:(lia))) as Fd.
  apply field_ok_spec in Fy as (Y1 & Y2 & Y3 & Y4 & Y5).
  apply field_ok_spec in Fm as (M1 & M2 & M3 & M4 & M5).
  apply field_ok_spec in Fd as (D1 & D2 & D3 & D4 & D5).
  rewrite M3, D3. unfold pgn_date.
  repeat split; auto.
  - destruct (format_0d 4 y); [congruence|discriminate].
  - apply startswith_app; assumption.
  - apply split_pgn_date; assumption.
Qed.

(** X16: a date tag written as the PGN standard asks, [YYYY.MM.DD] with
    the year in 0..9999 and the two other fields in 0..99, is turned by
    the resolver into the same three fields joined by dashes; and when
    the three numbers are a date of the calendar, the loader stores that
    very string, so the resolver's date key matches the stored one. *)
Theorem standard_date_round_trip (y m d : Z) :
  0 <= y <= 9999 -> 0 <= m <= 99 -> 0 <= d <= 99 ->
  parse_pgn_date_to_iso (Some (pgn_date y m d)) = Ok (Some (iso_date y m d)) /\
  (1 <= y -> 1 <= m <= 12 -> 1 <= d <= days_in_month y m ->
   parse_pgn_date (Some (pgn_date y m d)) = Ok (Some (iso_date y m d))).
Proof.
  intros Hy Hm Hd.
  destruct (pgn_date_parts y m d Hy Hm Hd) as (P1 & P2 & P3 & P4 & P5 & P6).
  split.
  - apply (parse_pgn_date_fields _ _ _ _ [] y m d P1 P2 P3 P4 P5 P6).
  - intros Vy Vm Vd.
    rewrite (parse_pgn_date_loader_fields _ _ _ _ [] y m d P1 P2 P3 P4 P5 P6).
    unfold date_isoformat.
    replace ((1 <=? y) && (y <=? 9999) && (1 <=? m) && (m <=? 12)
             && (1 <=? d) && (d <=? days_in_month y m)) with true;
      [reflexivity|].
    symmetry. repeat (apply andb_true_iff; split); lia.
Qed.

Lemma standard_date_round_trip_witness :
  parse_pgn_date_to_iso (Some (pgn_date 2024 2 29))
  = Ok (Some (iso_date 2024 2 29)) /\
  parse_pgn_date (Some (pgn_date 2024 2 29)) = Ok (Some "2024-02-29").
Proof.
  destruct (standard_date_round_trip 2024 2 29) as [H1 H2]; try lia.
  split; [exact H1|]. apply H2; [lia|lia|]. vm_compute. split; discriminate.
Defined.

(** X17: for a standard date tag whose three numbers are not a date of
    the calendar (a month 0 or above 12, a day the month does not have,
    or the year 0), the loader stores no date while the resolver still
    computes a date key, so the resolver queries by a date that no stored
    game of the loader can carry for this tag. *)
Theorem impossible_date_loader_null_resolver_dated (y m d : Z) :
  0 <= y <= 9999 -> 0 <= m <= 99 -> 0 <= d <= 99 ->
  ~ (1 <= y /\ 1 <= m <= 12 /\ 1 <= d <= days_in_month y m) ->
  parse_pgn_date (Some (pgn_date y m d)) = Ok None /\
  parse_pgn_date_to_iso (Some (pgn_date y m d)) = Ok (Some (iso_date y m d)).
Proof.
  intros Hy Hm Hd Hbad.
  destruct (pgn_date_parts y m d Hy Hm Hd) as (P1 & P2 & P3 & P4 & P5 & P6).
  split.
  - rewrite (parse_pgn_date_loader_fields _ _ _ _ [] y m d P1 P2 P3 P4 P5 P6).
    destruct (date_isoformat y m d) as [iso|e] eqn:E; [|reflexivity].
    apply date_isoformat_ok in E as (_ & E1 & E2 & E3).
    exfalso. apply Hbad. lia.
  - apply (parse_pgn_date_fields _ _ _ _ [] y m d P1 P2 P3 P4 P5 P6).
Qed.

Lemma impossible_date_loader_null_resolver_dated_witness :
  parse_pgn_date (Some "2023.02.29") = Ok None /\
  parse_pgn_date_to_iso (Some "2023.02.29") = Ok (Some "2023-02-29").
Proof.
  apply (impossible_date_loader_null_resolver_dated 2023 2 29); try lia.
  vm_compute. intros (_ & _ & _ & H). apply H. reflexivity.
Defined.
